(** * Super-Mario-Bros: the collision handlers and timers of [app.py]

    A shallow embedding of [Assignment 3/spritesheets/app.py]: the
    configuration reader, the [Switch] block, the star timer and the six
    collision handlers of [MarioApp], with the properties the specification
    states about them. *)

From Stdlib Require Import ZArith QArith Lqa Ascii String DecimalString.
From stdpp Require Import base strings gmap list.

Local Open Scope Z_scope.

(** ** Python exceptions and results *)

Inductive exn := TypeError | AttributeError | KeyError | ValueError.

Inductive result (X : Type) :=
  | Ok (x : X)
  | Raise (e : exn).
Arguments Ok {X} x.
Arguments Raise {X} e.

(** ** The part of [str] that [read_config_file] uses *)

Module PyStr.

(** [str.isspace] on the code points below 256. *)
Definition is_space (c : ascii) : bool :=
  let n := nat_of_ascii c in
  ((9 <=? n)%nat && (n <=? 13)%nat) || ((28 <=? n)%nat && (n <=? 32)%nat)
  || (n =? 133)%nat || (n =? 160)%nat.

Fixpoint lstrip (s : string) : string :=
  match s with
  | String c s' => if is_space c then lstrip s' else s
  | EmptyString => EmptyString
  end.

Definition rstrip (s : string) : string := String.rev (lstrip (String.rev s)).

(** [s.strip()] *)
Definition strip (s : string) : string := rstrip (lstrip s).

(** [s.startswith(p)] and [s.endswith(p)] *)
Definition startswith (p s : string) : bool := String.prefix p s.
Definition endswith (p s : string) : bool :=
  String.prefix (String.rev p) (String.rev s).

Definition drop_first (s : string) : string :=
  match s with
  | String _ s' => s'
  | EmptyString => EmptyString
  end.

(** [s[1:-1]] *)
Definition slice_1_m1 (s : string) : string :=
  drop_first (String.rev (drop_first (String.rev s))).

(** [s.count(c)] for a one-character [c] *)
Fixpoint count (c : ascii) (s : string) : nat :=
  match s with
  | String a s' => (if Ascii.eqb a c then 1 else 0) + count c s'
  | EmptyString => 0
  end.

(** [s.split(c)] for a one-character [c] *)
Fixpoint split (c : ascii) (s : string) : list string :=
  match s with
  | String a s' =>
      if Ascii.eqb a c then EmptyString :: split c s'
      else match split c s' with
           | w :: ws => String a w :: ws
           | [] => [String a EmptyString]
           end
  | EmptyString => [EmptyString]
  end.

(** [str(n)] for an [int] *)
Definition str (n : Z) : string := NilEmpty.string_of_int (Z.to_int n).

End PyStr.

(** ** [read_config_file] *)

Module Config.
Import PyStr.

(** The loop state: the dictionary [config] and the variable [heading]. *)
Abbreviation config := (gmap string (gmap string string)).
Abbreviation state := (gmap string (gmap string string) * option string)%type.

(** The test of the first branch, on the stripped line. *)
Definition is_header (line : string) : bool :=
  startswith "=" line && endswith "=" line.

(** One iteration of [for line in config_file]. *)
Definition read_line (st : state) (line : string) : result state :=
  let '(config, heading) := st in
  let line := strip line in
  if is_header line then
    let heading := slice_1_m1 line in
    Ok (<[heading := ∅]> config, Some heading)
  else
    match (count ":" line =? 1)%nat, heading with
    | true, Some h =>
        match split ":" line with
        | [name; value] =>
            match config !! h with
            | Some section =>
                Ok (<[h := <[strip name := strip value]> section]> config,
                    heading)
            | None => Raise KeyError
            end
        | _ => Raise ValueError
        end
    | _, _ => Ok st
    end.

Global Arguments read_line : simpl never.

Fixpoint read_lines (st : state) (lines : list string) : result state :=
  match lines with
  | [] => Ok st
  | line :: rest =>
      match read_line st line with
      | Ok st' => read_lines st' rest
      | Raise e => Raise e
      end
  end.

(** The invariant of the loop: the section named by [heading] exists in
    [config]. *)
Definition heading_known (st : state) : Prop :=
  ∀ h, st.2 = Some h → is_Some (st.1 !! h).

(** [read_config_file], given the lines of the chosen file. *)
Definition read_config_file (lines : list string) : result config :=
  match read_lines (∅, None) lines with
  | Ok (config, _) => Ok config
  | Raise e => Raise e
  end.

End Config.

(** ** The game objects *)

Module Mario.
Import PyStr.

(** The result of [get_collision_direction]: 'A', 'B', 'L' or 'R'. *)
Inductive direction := DirA | DirB | DirL | DirR.

Definition direction_eqb (d1 d2 : direction) : bool :=
  match d1, d2 with
  | DirA, DirA | DirB, DirB | DirL, DirL | DirR, DirR => true
  | _, _ => false
  end.

(** The sides of an entity. *)
Inductive side := LeftSide | RightSide | TopSide | BottomSide.

(** Modelled from the spec: what the result of the absent
    [get_collision_direction(first, second)] of [game/util.py] says, as
    [app.py] reads it. 'A' is the player landing on a block or stomping a mob,
    and on 'L' the player is knocked back to the left (lines 762-765): the
    letter names the side of [second] on which [first] is. The contact
    then lies on the opposite side of [first]: this is the side of [first]
    that is struck. *)
Definition struck_side (d : direction) : side :=
  match d with
  | DirL => RightSide
  | DirR => LeftSide
  | DirA => BottomSide
  | DirB => TopSide
  end.

(** *** Player

    [player.py] is not among the sources; the handlers use the accessors
    below. [self._player] and the [player] argument of the handlers are the
    one player object of the world. *)
Record Player := mkPlayer {
  _health : Z;
  _max_health : Z;
  _score : Z;
  _jumping : bool;
  position : Z * Z;
  velocity : Z * Z
}.

Definition get_health (p : Player) : Z := _health p.
Definition get_max_health (p : Player) : Z := _max_health p.
Definition get_score (p : Player) : Z := _score p.
Definition is_jumping (p : Player) : bool := _jumping p.

Definition set_health (h : Z) (p : Player) : Player :=
  mkPlayer h (_max_health p) (_score p) (_jumping p) (position p) (velocity p).
Definition set_jumping (j : bool) (p : Player) : Player :=
  mkPlayer (_health p) (_max_health p) (_score p) j (position p) (velocity p).
Definition set_velocity (v : Z * Z) (p : Player) : Player :=
  mkPlayer (_health p) (_max_health p) (_score p) (_jumping p) (position p) v.
Definition set_position (xy : Z * Z) (p : Player) : Player :=
  mkPlayer (_health p) (_max_health p) (_score p) (_jumping p) xy (velocity p).
Definition change_score (change : Z) (p : Player) : Player :=
  mkPlayer (_health p) (_max_health p) (_score p + change) (_jumping p)
           (position p) (velocity p).
Definition reset_score (p : Player) : Player :=
  mkPlayer (_health p) (_max_health p) 0 (_jumping p) (position p) (velocity p).

(** Modelled from the spec: [Player.change_health] of the absent
    [player.py]; the health is "clamped [0, max_health]". *)
Definition change_health (change : Z) (p : Player) : Player :=
  set_health (Z.max 0 (Z.min (_max_health p) (_health p + change))) p.

(** *** Mobs, items and blocks *)

Record Mob := mkMob {
  mob_ref : nat;       (* the identity of the object *)
  mob_id : string;     (* [get_id()] *)
  tempo : Z
}.

Definition set_tempo (t : Z) (m : Mob) : Mob := mkMob (mob_ref m) (mob_id m) t.

(** [MushroomMob()] *)
Definition MushroomMob (ref : nat) : Mob := mkMob ref "mushroom" 45.

Inductive ItemClass :=
  | Coin (value : Z)
  | Star.

Record DroppedItem := mkItem {
  item_ref : nat;
  item_class : ItemClass
}.

Definition item_get_id (i : DroppedItem) : string :=
  match item_class i with
  | Coin _ => "coin"
  | Star => "star"
  end.

(** [Switch]: the attributes [_active] and [start]; time is read from
    [time.time()] and taken as a rational number of seconds. *)
Record Switch := mkSwitch {
  _active : bool;
  start : Q
}.

(** [Switch.__init__] *)
Definition Switch_init (now : Q) : Switch := mkSwitch true now.

(** The library's [MysteryBlock]: its constructor arguments and its flag. *)
Record MysteryBlock := mkMystery {
  mystery_drop : option string;
  mystery_drop_range : Z * Z;
  mystery_active : bool
}.

Inductive BlockClass :=
  | PlainBlock (block_id : string)     (* [Block(block_id)] *)
  | Mystery (m : MysteryBlock)
  | BounceBlock
  | SwitchBlock (s : Switch)
  | GoalsFlag.

Record Block := mkBlock {
  block_ref : nat;
  block_class : BlockClass
}.

(** *** World

    The live entities of the world, by identity. *)
Record World := mkWorld {
  blocks : list nat;
  mobs : list nat;
  items : list nat
}.

(** What the absent game library decides: the level loader with the world
    builder, and [MysteryBlock] ([game/block.py]). *)
Class GameLibrary := {
  load_world : string → World;
  mystery_id : string;
  mystery_on_hit : direction → MysteryBlock → World → MysteryBlock * World
}.

Definition block_get_id `{GameLibrary} (b : Block) : string :=
  match block_class b with
  | PlainBlock block_id => block_id
  | Mystery _ => mystery_id
  | BounceBlock => "bouncyboi"
  | SwitchBlock _ => "switch"
  | GoalsFlag => "flagpole"
  end.

(** The calls to the world and to the dialogs that a handler makes, in
    order. *)
Inductive call :=
  | remove_block_call (ref : nat)
  | remove_mob_call (ref : nat)
  | remove_item_call (ref : nat)
  | askquestion_call
  | askstring_call
  | load_world_call (level : string)
  | destroy_call.

(** The answer of [messagebox.askquestion]. *)
Inductive answer := yes | no.

(** *** MarioApp *)
Record MarioApp := mkApp {
  _player : Player;
  _world : World;
  current_level : string;
  _player_invincible : bool;
  _start_invincible : option Q;    (* unset until the first star *)
  is_ducking : option bool;        (* unset until the first key press *)
  highscores_txt : string;         (* the content of Highscores.txt *)
  calls : list call
}.

Definition with_player (f : Player → Player) (self : MarioApp) : MarioApp :=
  mkApp (f (_player self)) (_world self) (current_level self)
        (_player_invincible self) (_start_invincible self) (is_ducking self)
        (highscores_txt self) (calls self).
Definition with_world (f : World → World) (self : MarioApp) : MarioApp :=
  mkApp (_player self) (f (_world self)) (current_level self)
        (_player_invincible self) (_start_invincible self) (is_ducking self)
        (highscores_txt self) (calls self).
Definition set_current_level (l : string) (self : MarioApp) : MarioApp :=
  mkApp (_player self) (_world self) l
        (_player_invincible self) (_start_invincible self) (is_ducking self)
        (highscores_txt self) (calls self).
Definition set_player_invincible (b : bool) (self : MarioApp) : MarioApp :=
  mkApp (_player self) (_world self) (current_level self)
        b (_start_invincible self) (is_ducking self)
        (highscores_txt self) (calls self).
Definition set_start_invincible (t : Q) (self : MarioApp) : MarioApp :=
  mkApp (_player self) (_world self) (current_level self)
        (_player_invincible self) (Some t) (is_ducking self)
        (highscores_txt self) (calls self).
Definition set_is_ducking (b : bool) (self : MarioApp) : MarioApp :=
  mkApp (_player self) (_world self) (current_level self)
        (_player_invincible self) (_start_invincible self) (Some b)
        (highscores_txt self) (calls self).
Definition write_highscores (text : string) (self : MarioApp) : MarioApp :=
  mkApp (_player self) (_world self) (current_level self)
        (_player_invincible self) (_start_invincible self) (is_ducking self)
        (highscores_txt self +:+ text) (calls self).
Definition record_call (c : call) (self : MarioApp) : MarioApp :=
  mkApp (_player self) (_world self) (current_level self)
        (_player_invincible self) (_start_invincible self) (is_ducking self)
        (highscores_txt self) (calls self ++ [c]).

(** Modelled from the spec: [World.remove_block], [remove_mob] and
    [remove_item] of the absent [game/world.py]; the entity is "removed
    from World + physics space". *)
Definition remove_ref (ref : nat) (l : list nat) : list nat :=
  filter (λ r, r ≠ ref) l.
Definition remove_block (b : Block) (self : MarioApp) : MarioApp :=
  record_call (remove_block_call (block_ref b))
    (with_world (λ w, mkWorld (remove_ref (block_ref b) (blocks w)) (mobs w) (items w)) self).
Definition remove_mob (m : Mob) (self : MarioApp) : MarioApp :=
  record_call (remove_mob_call (mob_ref m))
    (with_world (λ w, mkWorld (blocks w) (remove_ref (mob_ref m) (mobs w)) (items w)) self).
Definition remove_item (i : DroppedItem) (self : MarioApp) : MarioApp :=
  record_call (remove_item_call (item_ref i))
    (with_world (λ w, mkWorld (blocks w) (mobs w) (remove_ref (item_ref i) (items w))) self).

(** *** Switch *)

(** [Switch.on_hit]; [d] is [get_collision_direction(player, self)] and
    [now] the reading of [time.time()]. *)
Definition Switch_on_hit (d : direction) (now : Q) (self : Switch) : Switch :=
  if negb (direction_eqb d DirA) then self
  else if _active self then mkSwitch false now
  else self.

Definition Switch_is_active (self : Switch) : bool := _active self.

(** [Switch.check_time] *)
Definition check_time (now : Q) (self : Switch) : Switch :=
  if negb (_active self) then
    if Qle_bool 10 (now - start self) then mkSwitch true (start self)
    else self
  else self.

(** [Switch.step] *)
Definition Switch_step (now : Q) (self : Switch) : Switch := check_time now self.

(** What happens to a switch: a contact with the player, or a tick of the
    world. *)
Inductive switch_event :=
  | Hit (d : direction) (now : Q)
  | Tick (now : Q).

Definition event_time (e : switch_event) : Q :=
  match e with
  | Hit _ now => now
  | Tick now => now
  end.

Definition switch_react (self : Switch) (e : switch_event) : Switch :=
  match e with
  | Hit d now => Switch_on_hit d now self
  | Tick now => Switch_step now self
  end.

Definition switch_run (self : Switch) (es : list switch_event) : Switch :=
  fold_left switch_react es self.

(** *** The methods of MarioApp *)

Definition BLOCK_SIZE : Z := 2 ^ 4.

(** Modelled from the spec: [World.add_player] of the absent
    [game/world.py]; on a level reset the player's "position/velocity is
    reset". *)
Definition add_player (x y : Z) (p : Player) : Player :=
  set_velocity (0, 0) (set_position (x, y) p).

(** [MarioApp.player_invincible]; [t1] and [t2] are its two readings of
    [time.time()]. *)
Definition player_invincible (t1 t2 : Q) (self : MarioApp) : MarioApp :=
  let self := set_start_invincible t1 self in
  if _player_invincible self then set_start_invincible t2 self else self.

(** [MarioApp.check_invincible] *)
Definition check_invincible (now : Q) (self : MarioApp) : result MarioApp :=
  if _player_invincible self then
    match _start_invincible self with
    | Some t0 =>
        if Qle_bool 10 (now - t0) then Ok (set_player_invincible false self)
        else Ok self
    | None => Raise AttributeError
    end
  else Ok self.

Section WithLibrary.
Context `{GameLibrary}.

(** [MarioApp.reset_world] *)
Definition reset_world (new_level : string) (self : MarioApp) : MarioApp :=
  let self := record_call (load_world_call new_level) self in
  let self := with_world (λ _, load_world new_level) self in
  let self := with_player (add_player BLOCK_SIZE BLOCK_SIZE) self in
  with_player reset_score self.

(** [MarioApp.reset_level] *)
Definition reset_level (self : MarioApp) : MarioApp :=
  let self := reset_world (current_level self) self in
  with_player (λ p, set_health (get_max_health p) p) self.

(** [MarioApp.quit] *)
Definition quit (self : MarioApp) : MarioApp := record_call destroy_call self.

(** [MarioApp.retry]; [query] is what the dialog returns when it is
    shown. *)
Definition retry (query : answer) (self : MarioApp) : MarioApp :=
  if get_health (_player self) =? 0 then
    let self := record_call askquestion_call self in
    match query with
    | yes => reset_level self
    | no => quit self
    end
  else self.

(** [MarioApp._move], by the key symbol. *)
Definition _move (keysym : string) (self : MarioApp) : MarioApp :=
  let self := if String.eqb keysym "d"
              then with_player (set_velocity (500, 10)) self else self in
  let self := if String.eqb keysym "Right"
              then with_player (set_velocity (75, 10)) self else self in
  let self := if String.eqb keysym "a"
              then with_player (set_velocity (-75, 10)) self else self in
  let self := if String.eqb keysym "Left"
              then with_player (set_velocity (-75, 10)) self else self in
  set_is_ducking false self.

(** [MarioApp._jump] *)
Definition _jump (self : MarioApp) : MarioApp :=
  let self :=
    if negb (is_jumping (_player self))
    then with_player (set_jumping true)
           (with_player (set_velocity (0, -210)) self)
    else self in
  set_is_ducking false self.

(** [MarioApp._duck] *)
Definition _duck (self : MarioApp) : MarioApp :=
  set_is_ducking true (with_player (set_velocity (0, 150)) self).

(** *** The collision handlers

    The calls to [StatusDisplay] (the view) and to [print] are left out. *)

(** [_handle_mob_collide_block]; [d] is
    [get_collision_direction(mob, block)]. *)
Definition _handle_mob_collide_block
    (d : direction) (mob : Mob) (block : Block) (self : MarioApp)
    : Mob * MarioApp * bool :=
  let self :=
    if String.eqb (mob_id mob) "fireball" then
      let self := if String.eqb (block_get_id block) "brick"
                  then remove_block block self else self in
      remove_mob mob self
    else self in
  let mob := if direction_eqb d DirL then set_tempo (-35) mob else mob in
  let mob := if direction_eqb d DirR then set_tempo 35 mob else mob in
  (mob, self, true).

(** [_handle_mob_collide_item] *)
Definition _handle_mob_collide_item
    (mob : Mob) (block : DroppedItem) (self : MarioApp)
    : MarioApp * bool :=
  (self, false).

(** [_handle_mob_collide_mob]; [d12] is
    [get_collision_direction(mob1, mob2)] and [d21] is
    [get_collision_direction(mob2, mob1)]. *)
Definition _handle_mob_collide_mob
    (d12 d21 : direction) (mob1 mob2 : Mob) (self : MarioApp)
    : Mob * Mob * MarioApp * bool :=
  let self :=
    if String.eqb (mob_id mob1) "fireball" || String.eqb (mob_id mob2) "fireball"
    then remove_mob mob2 (remove_mob mob1 self) else self in
  if String.eqb (mob_id mob1) "mushroom" || String.eqb (mob_id mob2) "mushroom"
  then
    let mob1 := if direction_eqb d12 DirL then set_tempo (-35) mob1 else mob1 in
    let mob1 := if direction_eqb d12 DirR then set_tempo 35 mob1 else mob1 in
    let mob2 := if direction_eqb d21 DirL then set_tempo (-35) mob2 else mob2 in
    let mob2 := if direction_eqb d21 DirR then set_tempo 35 mob2 else mob2 in
    (mob1, mob2, self, false)
  else (mob1, mob2, self, false).

(** Modelled from the spec: [collect] of the library's [Coin]
    ([game/item.py] is absent), which "adds score". [Star.collect] sets
    [_player_invincible] on its own [self]: called on the item, it
    leaves the application as it is. *)
Definition collect (dropped_item : DroppedItem) (self : MarioApp) : MarioApp :=
  match item_class dropped_item with
  | Coin value => with_player (change_score value) self
  | Star => self
  end.

(** [Star.collect(self, player)] with the application as [self]. *)
Definition Star_collect (self : MarioApp) : MarioApp :=
  set_player_invincible true self.

(** [_handle_player_collide_item]; [t1] and [t2] are the readings of the
    clock in [player_invincible]. *)
Definition _handle_player_collide_item
    (t1 t2 : Q) (dropped_item : DroppedItem) (self : MarioApp)
    : MarioApp * bool :=
  let self := collect dropped_item self in
  let self := remove_item dropped_item self in
  let self :=
    if String.eqb (item_get_id dropped_item) "star"
    then player_invincible t1 t2 (Star_collect self)
    else self in
  (self, false).

(** [BounceBlock.on_hit] *)
Definition BounceBlock_on_hit (d : direction) (player : Player) : Player :=
  if negb (direction_eqb d DirA) then player
  else set_velocity (0, -200) player.

(** [block.on_hit(arbiter, (self._world, player))], by the class of the
    block. Modelled from the spec: [Block.on_hit] of the absent
    [game/block.py], which plain blocks and [GoalsFlag] inherit; the spec
    gives it no effect. *)
Definition on_hit (d : direction) (now : Q) (block : Block) (self : MarioApp)
    : Block * MarioApp :=
  match block_class block with
  | PlainBlock _ | GoalsFlag => (block, self)
  | Mystery m =>
      let '(m', w') := mystery_on_hit d m (_world self) in
      (mkBlock (block_ref block) (Mystery m'), with_world (λ _, w') self)
  | BounceBlock => (block, with_player (BounceBlock_on_hit d) self)
  | SwitchBlock s =>
      (mkBlock (block_ref block) (SwitchBlock (Switch_on_hit d now s)), self)
  end.

(** Lines 711-724 of [_handle_player_collide_block]: the flagpole;
    [name] is what [simpledialog.askstring] returns, [None] when the
    dialog is cancelled. *)
Definition flagpole_contact (d : direction) (name : option string)
    (self : MarioApp) : MarioApp * result unit :=
  let self :=
    if direction_eqb d DirA
    then with_player (λ p, set_health (get_max_health p) p) self
    else self in
  let self := record_call askstring_call self in
  match name with
  | Some name =>
      let entry :=
        name +:+ ("  Score: " +:+ str (get_score (_player self)) +:+ " ") in
      let self := write_highscores (entry +:+ String "010" "") self in
      let self := set_current_level "level2.txt" self in
      (reset_world (current_level self) self, Ok ())
  | None => (self, Raise TypeError)
  end.

(** Lines 727-730: the tunnel. *)
Definition tunnel_contact (d : direction) (self : MarioApp)
    : MarioApp * result unit :=
  match is_ducking self with
  | Some true =>
      if direction_eqb d DirA then (reset_world "level2.txt" self, Ok ())
      else (self, Ok ())
  | Some false => (self, Ok ())
  | None => (self, Raise AttributeError)
  end.

(** [_handle_player_collide_block]; [d] is
    [get_collision_direction(self._player, block)]. *)
Definition _handle_player_collide_block
    (d : direction) (now : Q) (name : option string)
    (block : Block) (self : MarioApp)
    : Block * MarioApp * result bool :=
  let '(block, self) := on_hit d now block self in
  let self :=
    if direction_eqb d DirA then with_player (set_jumping false) self
    else self in
  let '(self, r) :=
    if String.eqb (block_get_id block) "flagpole"
    then flagpole_contact d name self else (self, Ok ()) in
  match r with
  | Raise e => (block, self, Raise e)
  | Ok _ =>
      let '(self, r) :=
        if String.eqb (block_get_id block) "tunnel"
        then tunnel_contact d self else (self, Ok ()) in
      match r with
      | Raise e => (block, self, Raise e)
      | Ok _ => (block, self, Ok true)
      end
  end.

(** Lines 757-776 of [_handle_player_collide_mob]: the mushroom; [d] is
    [get_collision_direction(self._player, mob)]. *)
Definition mushroom_contact (d : direction) (mob : Mob) (self : MarioApp)
    : Mob * MarioApp :=
  let self := if _player_invincible self then remove_mob mob self else self in
  match d with
  | DirL =>
      if negb (_player_invincible self) then
        let self := with_player (change_health (-1)) self in
        let self := with_player (set_velocity (-100, 0)) self in
        (set_tempo (-35) mob, self)
      else (mob, self)
  | DirR =>
      if negb (_player_invincible self) then
        let self := with_player (change_health (-1)) self in
        let self := with_player (set_velocity (100, 0)) self in
        (set_tempo (-35) mob, self)
      else (mob, self)
  | DirA =>
      let self := with_player (set_velocity (0, -100)) self in
      (mob, remove_mob mob self)
  | DirB => (mob, self)
  end.

(** Lines 753-776 of [_handle_player_collide_mob]: what the contact does
    to the player and the mob. *)
Definition player_mob_contact (d : direction) (mob : Mob) (self : MarioApp)
    : Mob * MarioApp :=
  let self :=
    if String.eqb (mob_id mob) "fireball" then
      if negb (_player_invincible self)
      then with_player (change_health (-3)) self else self
    else self in
  if String.eqb (mob_id mob) "mushroom"
  then mushroom_contact d mob self else (mob, self).

(** [_handle_player_collide_mob]. Modelled from the spec: [Mob.on_hit]
    of the absent [game/mob.py], called first; the spec gives it no
    effect. *)
Definition _handle_player_collide_mob
    (d : direction) (query : answer) (mob : Mob) (self : MarioApp)
    : Mob * MarioApp * bool :=
  let '(mob, self) := player_mob_contact d mob self in
  let self := retry query self in
  (mob, self, true).

(** [_handle_player_separate_block] *)
Definition _handle_player_separate_block
    (block : Block) (self : MarioApp) : MarioApp * bool :=
  (self, true).

(** *** The star timer over time

    A star is picked up (a player-item contact with the two clock
    readings), or [MarioApp.step] polls [check_invincible]. *)
Inductive app_event :=
  | Pickup (t1 t2 : Q) (dropped_item : DroppedItem)
  | Poll (now : Q).

Definition app_react (self : MarioApp) (e : app_event) : result MarioApp :=
  match e with
  | Pickup t1 t2 dropped_item =>
      Ok (fst (_handle_player_collide_item t1 t2 dropped_item self))
  | Poll now => check_invincible now self
  end.

Fixpoint app_run (self : MarioApp) (es : list app_event) : result MarioApp :=
  match es with
  | [] => Ok self
  | e :: es' =>
      match app_react self e with
      | Ok self' => app_run self' es'
      | Raise x => Raise x
      end
  end.

End WithLibrary.

(** *** A library and a game for the examples *)

(** A loader that knows two levels. *)
Definition example_library : GameLibrary := {|
  load_world level :=
    if String.eqb level "level2.txt"
    then mkWorld [10; 11]%nat [12]%nat [13]%nat
    else mkWorld [1; 2; 3]%nat [4; 5]%nat [6]%nat;
  mystery_id := "mystery";
  mystery_on_hit d m w := (m, w)
|}.

(** [Player(max_health=20)] *)
Definition Player_init : Player := mkPlayer 20 20 0 false (0, 0) (0, 0).

(** The application when [__init__] returns, in "level1.txt". *)
Definition example_app : MarioApp :=
  mkApp (add_player BLOCK_SIZE BLOCK_SIZE Player_init)
        (@load_world example_library "level1.txt")
        "level1.txt" false None None "" [].

(** Two blocks of the first level. *)
Definition brick : Block := mkBlock 1 (PlainBlock "brick").
Definition flagpole : Block := mkBlock 3 GoalsFlag.

(** The number of retry dialogs among the calls. *)
Definition is_askquestion (c : call) : bool :=
  match c with
  | askquestion_call => true
  | _ => false
  end.
Definition count_askquestion (cs : list call) : nat :=
  length (List.filter is_askquestion cs).

(** The polls of [check_invincible] that come less than 10 seconds after
    [t0]. *)
Definition polls_before (t0 : Q) (es : list app_event) : Prop :=
  Forall (λ e, ∃ now, e = Poll now ∧ (now - t0 < 10)%Q) es.

End Mario.

(** ** The configuration at start-up *)

Module Startup.
Import PyStr Config.

(** The names of the sections that the header lines of a file open. *)
Definition header_names (lines : list string) : list string :=
  omap (λ l, if is_header (strip l) then Some (slice_1_m1 (strip l)) else None)
       lines.

(** The value of [heading] after the lines. *)
Definition last_heading (lines : list string) : option string :=
  last (header_names lines).

(** The key that a line binds when it is read as an entry. *)
Definition line_key (line : string) : option string :=
  if is_header (strip line) then None
  else if (count ":" (strip line) =? 1)%nat then
    match split ":" (strip line) with
    | [name; _] => Some (strip name)
    | _ => None
    end
  else None.

(** A string with no white space at either end. *)
Definition trimmed (s : string) : Prop := strip s = s.

(** Every key and value of the configuration is trimmed and holds no
    ':'. *)
Definition clean_entries (config : gmap string (gmap string string)) : Prop :=
  ∀ h entries k v,
    config !! h = Some entries → entries !! k = Some v →
    trimmed k ∧ trimmed v ∧ count ":" k = 0%nat ∧ count ":" v = 0%nat.

(** [config[section][key]] *)
Definition config_get (config : gmap string (gmap string string))
    (section key : string) : result string :=
  match config !! section with
  | Some entries =>
      match entries !! key with
      | Some value => Ok value
      | None => Raise KeyError
      end
  | None => Raise KeyError
  end.

(** What [MarioApp.__init__] reads from the configuration. *)
Record settings := mkSettings {
  gravity_amount : string;
  start_level : string;
  player_name : string;
  start_x : string;
  start_y : string
}.

(** Lines 351-361 of [MarioApp.__init__]: the configuration file is read
    and five of its entries are looked up. *)
Definition init_config (lines : list string) : result settings :=
  match read_config_file lines with
  | Raise e => Raise e
  | Ok config =>
      match config_get config "=World=" "gravity" with
      | Raise e => Raise e
      | Ok gravity_amount =>
      match config_get config "=World=" "start" with
      | Raise e => Raise e
      | Ok current_level =>
      match config_get config "=Player=" "character" with
      | Raise e => Raise e
      | Ok player_name =>
      match config_get config "=Player=" "x" with
      | Raise e => Raise e
      | Ok x =>
      match config_get config "=Player=" "y" with
      | Raise e => Raise e
      | Ok y => Ok (mkSettings gravity_amount current_level player_name x y)
      end end end end end
  end.

End Startup.

(** ** The status display and the view *)

Module Display.

(** The attributes of [StatusDisplay] that [healthbar_colour] computes;
    [_colour] is unset until the first call. *)
Record StatusDisplay := mkStatus {
  _colour : option string;
  _remaining_width : Z
}.

(** [StatusDisplay.__init__] *)
Definition StatusDisplay_init : StatusDisplay := mkStatus None 154.

(** Lines 825-856 of [StatusDisplay.healthbar_colour]: the colour and the
    width of the bar, from the health of the player and the invincibility
    flag. *)
Definition healthbar_attributes (health : Z) (invincible : bool)
    (self : StatusDisplay) : StatusDisplay :=
  let colour :=
    if 10 <=? health then Some "forest green"
    else if 5 <=? health then Some "dark orange"
    else if 4 <=? health then Some "red3"
    else if health =? 0 then Some "black"
    else _colour self in
  let width := _remaining_width self in
  let width := if health =? 20 then 154 else width in
  let width := if health <=? 16 then 122 else width in
  let width := if health <=? 12 then 91 else width in
  let width := if health <=? 8 then 60 else width in
  let width := if health <=? 4 then 30 else width in
  let width := if health =? 0 then 0 else width in
  let colour := if invincible then Some "gold" else colour in
  mkStatus colour width.

(** [StatusDisplay.healthbar_colour]: the label is made from the two
    attributes, which needs [_colour] to be set. *)
Definition healthbar_colour (health : Z) (invincible : bool)
    (self : StatusDisplay) : StatusDisplay * result (string * Z) :=
  let self := healthbar_attributes health invincible self in
  match _colour self with
  | Some colour => (self, Ok (colour, _remaining_width self))
  | None => (self, Raise AttributeError)
  end.

(** [MarioApp.scroll]: the offset given to [set_offset], if any, from the
    x position of the player, the width of the window and the width of the
    world in pixels; the positions are taken as rationals. *)
Definition scroll (x_position winfo_width pixel_width : Q) : option (Q * Q) :=
  let half_screen := (winfo_width / 2)%Q in
  let world_size := (pixel_width - half_screen)%Q in
  if Qle_bool x_position half_screen then Some (0%Q, 0%Q)
  else if Qle_bool half_screen x_position && Qle_bool x_position world_size
  then Some ((half_screen - x_position)%Q, 0%Q)
  else if Qle_bool world_size x_position
  then Some ((half_screen - world_size)%Q, 0%Q)
  else None.

End Display.

(** ** The application over a game *)

Module Game.
Import PyStr Mario.

(** [MarioApp.load_level]; [filename] is what the file dialog returns. *)
Definition load_level `{GameLibrary} (filename : string) (self : MarioApp)
    : MarioApp :=
  let self := set_current_level filename self in
  reset_world (current_level self) self.

(** What can happen to the application: a key press, an entry of the menu,
    a contact reported by the world with the objects and readings it comes
    with, or the poll of [MarioApp.step]. *)
Inductive game_event :=
  | KeyMove (keysym : string)
  | KeyJump
  | KeyDuck
  | MenuLoadLevel (filename : string)
  | MenuResetLevel
  | PlayerItem (t1 t2 : Q) (dropped_item : DroppedItem)
  | PlayerBlock (d : direction) (now : Q) (name : option string) (block : Block)
  | PlayerLeavesBlock (block : Block)
  | PlayerMob (d : direction) (query : answer) (mob : Mob)
  | MobBlock (d : direction) (mob : Mob) (block : Block)
  | MobItem (mob : Mob) (dropped_item : DroppedItem)
  | MobMob (d12 d21 : direction) (mob1 mob2 : Mob)
  | StepPoll (now : Q).

(** The application that an event leaves behind, whether the method
    returns or raises. *)
Definition game_react `{GameLibrary} (self : MarioApp) (e : game_event)
    : MarioApp :=
  match e with
  | KeyMove keysym => _move keysym self
  | KeyJump => _jump self
  | KeyDuck => _duck self
  | MenuLoadLevel filename => load_level filename self
  | MenuResetLevel => reset_level self
  | PlayerItem t1 t2 dropped_item =>
      (_handle_player_collide_item t1 t2 dropped_item self).1
  | PlayerBlock d now name block =>
      (_handle_player_collide_block d now name block self).1.2
  | PlayerLeavesBlock block => (_handle_player_separate_block block self).1
  | PlayerMob d query mob => (_handle_player_collide_mob d query mob self).1.2
  | MobBlock d mob block => (_handle_mob_collide_block d mob block self).1.2
  | MobItem mob dropped_item => (_handle_mob_collide_item mob dropped_item self).1
  | MobMob d12 d21 mob1 mob2 =>
      (_handle_mob_collide_mob d12 d21 mob1 mob2 self).1.2
  | StepPoll now =>
      match check_invincible now self with
      | Ok self' => self'
      | Raise _ => self
      end
  end.

Definition game_run `{GameLibrary} (self : MarioApp) (es : list game_event)
    : MarioApp :=
  fold_left game_react es self.

(** While the flag is set, the start of the star timer is set too. *)
Definition timer_set (self : MarioApp) : Prop :=
  _player_invincible self = true → is_Some (_start_invincible self).

(** An event that is no contact of the player with a block from Above. *)
Definition not_landing (e : game_event) : Prop :=
  match e with
  | PlayerBlock DirA _ _ _ => False
  | _ => True
  end.

(** A key press. *)
Definition key_press (e : game_event) : Prop :=
  match e with
  | KeyMove _ | KeyJump | KeyDuck => True
  | _ => False
  end.

(** A switch event that is no strike from Above. *)
Definition not_above (e : switch_event) : Prop :=
  match e with
  | Hit DirA _ => False
  | _ => True
  end.

End Game.

(** * Properties *)

(** ** The configuration reader *)

Section ConfigFacts.
Import PyStr Config.

Lemma split_nonempty c s : split c s ≠ [].
Proof.
  induction s as [|a s IH]; simpl; [done|].
  destruct (Ascii.eqb a c); [done|].
  by destruct (split c s).
Qed.

Lemma length_split c s : length (split c s) = S (count c s).
Proof.
  induction s as [|a s IH]; simpl; [done|].
  destruct (Ascii.eqb a c); simpl; [by rewrite IH|].
  pose proof (split_nonempty c s).
  destruct (split c s) as [|w ws]; [done|]. simpl in *. lia.
Qed.

(** With exactly one separator the unpacking [name, value = ...] works. *)
Lemma split_one c s :
  count c s = 1%nat → ∃ name value, split c s = [name; value].
Proof.
  intros Hc. pose proof (length_split c s) as Hl. rewrite Hc in Hl.
  destruct (split c s) as [|name [|value [|? ?]]]; simplify_eq/=; eauto.
Qed.

Lemma heading_known_init : heading_known (∅, None).
Proof. by intros h. Qed.

Lemma read_line_header cfg hd line :
  is_header (strip line) = true →
  read_line (cfg, hd) line
  = Ok (<[slice_1_m1 (strip line) := ∅]> cfg, Some (slice_1_m1 (strip line))).
Proof. intros Hh. unfold read_line. by rewrite Hh. Qed.

Lemma read_line_entry cfg h section line name value :
  is_header (strip line) = false →
  count ":" (strip line) = 1%nat →
  cfg !! h = Some section →
  split ":" (strip line) = [name; value] →
  read_line (cfg, Some h) line
  = Ok (<[h := <[strip name := strip value]> section]> cfg, Some h).
Proof.
  intros Hh Hc Hs Hsp. unfold read_line. by rewrite Hh, Hc, Hsp, Hs.
Qed.

Lemma read_line_skip cfg hd line :
  is_header (strip line) = false →
  ¬ (count ":" (strip line) = 1%nat ∧ hd ≠ None) →
  read_line (cfg, hd) line = Ok (cfg, hd).
Proof.
  intros Hh Hn. unfold read_line. rewrite Hh.
  destruct (count ":" (strip line) =? 1)%nat eqn:Hc; [|done].
  destruct hd as [h|]; [|done].
  apply Nat.eqb_eq in Hc. destruct Hn. by split.
Qed.

Lemma read_line_ok st line :
  heading_known st → ∃ st', read_line st line = Ok st' ∧ heading_known st'.
Proof.
  destruct st as [cfg hd]. intros Hk.
  destruct (is_header (strip line)) eqn:Hh.
  - rewrite read_line_header by done. eexists; split; [done|].
    intros h [= <-]. simpl. rewrite lookup_insert_eq. eauto.
  - destruct (decide (count ":" (strip line) = 1%nat ∧ hd ≠ None)) as [[Hc Hd]|Hn].
    + destruct hd as [h|]; [|done].
      destruct (Hk h eq_refl) as [section Hs]. simpl in Hs.
      destruct (split_one _ _ Hc) as (name & value & Hsp).
      rewrite (read_line_entry _ _ _ _ _ _ Hh Hc Hs Hsp).
      eexists; split; [done|].
      intros h' [= <-]. simpl. rewrite lookup_insert_eq. eauto.
    + rewrite read_line_skip by done. eauto.
Qed.

Lemma read_lines_ok st lines :
  heading_known st → ∃ st', read_lines st lines = Ok st' ∧ heading_known st'.
Proof.
  revert st. induction lines as [|line lines IH]; intros st Hk; simpl.
  - eauto.
  - destruct (read_line_ok st line Hk) as (st' & -> & Hk'). by apply IH.
Qed.

Lemma read_lines_snoc st pre line :
  read_lines st (pre ++ [line])
  = match read_lines st pre with
    | Ok st' => read_line st' line
    | Raise e => Raise e
    end.
Proof.
  revert st. induction pre as [|l pre IH]; intros st; simpl.
  - by destruct (read_line st line).
  - destruct (read_line st l); [apply IH|done].
Qed.

Lemma read_line_heading cfg hd line cfg' hd' :
  read_line (cfg, hd) line = Ok (cfg', hd') →
  hd' = if is_header (strip line) then Some (slice_1_m1 (strip line)) else hd.
Proof.
  unfold read_line. destruct (is_header (strip line)); [by intros [= _ <-]|].
  destruct (count ":" (strip line) =? 1)%nat; [|by intros [= _ <-]].
  destruct hd as [h|]; [|by intros [= _ <-]].
  destruct (split ":" (strip line)) as [|? [|? [|? ?]]]; try done.
  destruct (cfg !! h); [|done]. by intros [= _ <-].
Qed.

(** [heading] is still [None] exactly when no header line came. *)
Lemma heading_none_iff pre st0 cfg hd :
  read_lines st0 pre = Ok (cfg, hd) →
  hd = None ↔ st0.2 = None ∧ Forall (λ l, is_header (strip l) = false) pre.
Proof.
  revert st0. induction pre as [|l pre IH]; intros [cfg0 hd0]; simpl.
  - intros [= _ <-]. split; [by split|by intros []].
  - destruct (read_line (cfg0, hd0) l) as [[cfg1 hd1]|] eqn:Hl;
      [|done].
    intros Hrest. rewrite (IH _ Hrest). simpl.
    rewrite (read_line_heading _ _ _ _ _ Hl).
    destruct (is_header (strip l)) eqn:Hh.
    + split; [by intros []|]. intros [_ HF]. inversion HF; congruence.
    + rewrite Forall_cons. tauto.
Qed.

End ConfigFacts.

Section ConfigClaim.
Import PyStr Config.

(** Over the lines of a file that was opened, the loop never raises:
    malformed lines are skipped silently. *)
Lemma read_config_file_total lines : ∃ cfg, read_config_file lines = Ok cfg.
Proof.
  unfold read_config_file.
  destruct (read_lines_ok (∅, None) lines heading_known_init)
    as ([cfg hd] & -> & _).
  eauto.
Qed.

(** C9, as amended: after the lines [pre], a line that is itself a section
    header always opens an empty section under its name, whatever ':' it
    holds; a line that is no header adds the entry
    [strip name ↦ strip value] to the section of the current heading if and
    only if it holds exactly one ':' and a header line came before it; every
    other such line is skipped, with no error and the configuration
    unchanged. *)
Theorem read_config_line_contribution (pre : list string) (line : string) :
  ∃ cfg hd,
    read_lines (∅, None) pre = Ok (cfg, hd) ∧
    (hd = None ↔ Forall (λ l, is_header (strip l) = false) pre) ∧
    (is_header (strip line) = true →
       read_lines (∅, None) (pre ++ [line])
       = Ok (<[slice_1_m1 (strip line) := ∅]> cfg,
             Some (slice_1_m1 (strip line)))) ∧
    (is_header (strip line) = false →
     count ":" (strip line) = 1%nat ∧ hd ≠ None →
       ∃ h section name value,
         hd = Some h ∧ cfg !! h = Some section ∧
         split ":" (strip line) = [name; value] ∧
         read_lines (∅, None) (pre ++ [line])
         = Ok (<[h := <[strip name := strip value]> section]> cfg, hd)) ∧
    (is_header (strip line) = false →
     ¬ (count ":" (strip line) = 1%nat ∧ hd ≠ None) →
       read_lines (∅, None) (pre ++ [line]) = Ok (cfg, hd)).
Proof.
  destruct (read_lines_ok (∅, None) pre heading_known_init)
    as ([cfg hd] & Hpre & Hk).
  exists cfg, hd. split; [done|]. split.
  { rewrite (heading_none_iff _ _ _ _ Hpre). simpl. tauto. }
  rewrite read_lines_snoc, Hpre. split; [|split].
  - intros Hh. by apply read_line_header.
  - intros Hh [Hc Hd]. destruct hd as [h|]; [|done].
    destruct (Hk h eq_refl) as [section Hs]. simpl in Hs.
    destruct (split_one _ _ Hc) as (name & value & Hsp).
    exists h, section, name, value. repeat split; try done.
    by apply read_line_entry.
  - intros Hh Hn. by apply read_line_skip.
Qed.

(** Witness of C9: "gravity: 400" after the header "=World=", and the
    header-shaped line "=gravity: 400=" after the same header. *)
Lemma read_config_line_contribution_witness :
  read_lines (∅, None) (["=World="] ++ ["gravity: 400"])
  = Ok (<["World" := <["gravity" := "400"]> ∅]> (<["World" := ∅]> ∅),
        Some "World") ∧
  read_lines (∅, None) (["=World="] ++ ["=gravity: 400="])
  = Ok (<["gravity: 400" := ∅]> (<["World" := ∅]> ∅), Some "gravity: 400").
Proof.
  split.
  - destruct (read_config_line_contribution ["=World="] "gravity: 400")
      as (cfg & hd & Hpre & _ & _ & Hentry & _).
    vm_compute in Hpre. injection Hpre as <- <-.
    destruct (Hentry eq_refl)
      as (h & section & name & value & Hhd & Hs & Hsp & ->).
    { split; [reflexivity|discriminate]. }
    injection Hhd as <-.
    vm_compute in Hsp. injection Hsp as <- <-.
    vm_compute in Hs. injection Hs as <-.
    reflexivity.
  - destruct (read_config_line_contribution ["=World="] "=gravity: 400=")
      as (cfg & hd & Hpre & _ & Hheader & _).
    vm_compute in Hpre. injection Hpre as <- <-.
    exact (Hheader eq_refl).
Defined.

(** C9 as stated fails: "=gravity: 400=" holds exactly one ':' and follows
    the header "=World=", yet it adds no key-value entry: it opens a
    section of its own, and every section of the result is empty. *)
Lemma read_config_header_with_colon :
  count ":" (strip "=gravity: 400=") = 1%nat ∧
  Exists (λ l, is_header (strip l) = true) ["=World="] ∧
  ∃ cfg, read_config_file (["=World="] ++ ["=gravity: 400="]) = Ok cfg ∧
         cfg !! "gravity: 400" = Some ∅ ∧
         ∀ h section, cfg !! h = Some section → section = ∅.
Proof.
  split; [reflexivity|]. split; [by apply Exists_cons_hd|].
  exists (<["gravity: 400" := ∅]> (<["World" := ∅]> ∅)).
  split; [reflexivity|]. split; [reflexivity|].
  intros h section.
  rewrite !lookup_insert_Some, lookup_empty.
  intros [[_ <-]|[_ [[_ <-]|[_ ?]]]]; done.
Qed.

End ConfigClaim.

(** ** The timers *)

Section TimerFacts.
Import Mario.

Lemma Qle_bool_false (x y : Q) : (y < x)%Q → Qle_bool x y = false.
Proof.
  intros Hlt. destruct (Qle_bool x y) eqn:E; [|done].
  apply Qle_bool_iff in E. by apply Qlt_not_le in Hlt.
Qed.

Lemma Qle_bool_true (x y : Q) : (x <= y)%Q → Qle_bool x y = true.
Proof. apply Qle_bool_iff. Qed.

(** A pressed switch ignores every contact. *)
Lemma Switch_on_hit_inactive d now self :
  _active self = false → Switch_on_hit d now self = self.
Proof.
  intros Ha. unfold Switch_on_hit. rewrite Ha. by destruct (direction_eqb d DirA).
Qed.

Lemma check_time_early now self :
  (now - start self < 10)%Q → check_time now self = self.
Proof.
  intros Hlt. unfold check_time.
  destruct (_active self); simpl; [done|]. by rewrite Qle_bool_false.
Qed.

Lemma switch_react_quiet t0 e :
  (event_time e - t0 < 10)%Q →
  switch_react (mkSwitch false t0) e = mkSwitch false t0.
Proof.
  destruct e as [d now|now]; simpl; intros Hlt.
  - by apply Switch_on_hit_inactive.
  - by apply check_time_early.
Qed.

Lemma switch_run_quiet t0 es :
  Forall (λ e, (event_time e - t0 < 10)%Q) es →
  switch_run (mkSwitch false t0) es = mkSwitch false t0.
Proof.
  unfold switch_run. induction 1 as [|e es He _ IH]; simpl; [done|].
  by rewrite switch_react_quiet.
Qed.

(** C4: a strike from Above on an active switch makes it inactive and
    records the time [now] of the strike; whatever happens during the next
    10 seconds (ticks, further strikes from any side) leaves it inactive
    with the same start time; the first tick at 10 seconds or more makes
    it active again. *)
Theorem switch_cooldown
    (self : Switch) (now : Q) (es : list switch_event) (t : Q) :
  _active self = true →
  Forall (λ e, (event_time e - now < 10)%Q) es →
  (10 <= t - now)%Q →
  Switch_on_hit DirA now self = mkSwitch false now ∧
  (∀ d t', Switch_on_hit d t' (mkSwitch false now) = mkSwitch false now) ∧
  switch_run (Switch_on_hit DirA now self) es = mkSwitch false now ∧
  Switch_is_active (switch_run (Switch_on_hit DirA now self) (es ++ [Tick t]))
  = true.
Proof.
  intros Ha Hes Ht.
  assert (Switch_on_hit DirA now self = mkSwitch false now) as Hhit.
  { unfold Switch_on_hit. simpl. by rewrite Ha. }
  rewrite Hhit. split; [done|]. split.
  { intros d t'. by apply Switch_on_hit_inactive. }
  split; [by apply switch_run_quiet|].
  unfold switch_run. rewrite fold_left_app.
  fold (switch_run (mkSwitch false now) es). rewrite switch_run_quiet by done.
  simpl. unfold Switch_step, check_time. simpl.
  by rewrite Qle_bool_true.
Qed.

(** Witness of C4: struck at 5 s, polled at 6 s, struck again at 7 s,
    polled at 14.9 s and at 15 s. *)
Lemma switch_cooldown_witness :
  Switch_is_active
    (switch_run (Switch_on_hit DirA 5 (Switch_init 0))
                ([Tick 6; Hit DirA 7; Tick 14.9] ++ [Tick 15])) = true.
Proof.
  apply (switch_cooldown (Switch_init 0) 5 [Tick 6; Hit DirA 7; Tick 14.9] 15).
  - reflexivity.
  - repeat constructor.
  - discriminate.
Defined.

(** [check_invincible] before and after the 10 seconds. *)
Lemma check_invincible_early now t0 self :
  _start_invincible self = Some t0 →
  (now - t0 < 10)%Q →
  check_invincible now self = Ok self.
Proof.
  intros Hs Hlt. unfold check_invincible. rewrite Hs.
  destruct (_player_invincible self); [|done]. by rewrite Qle_bool_false.
Qed.

Lemma check_invincible_late now t0 self :
  _player_invincible self = true →
  _start_invincible self = Some t0 →
  (10 <= now - t0)%Q →
  check_invincible now self = Ok (set_player_invincible false self).
Proof.
  intros Hi Hs Hle. unfold check_invincible. rewrite Hi, Hs.
  by rewrite Qle_bool_true.
Qed.

Lemma app_run_polls_before t0 self es :
  _start_invincible self = Some t0 →
  polls_before t0 es →
  app_run self es = Ok self.
Proof.
  intros Hs. induction 1 as [|e es (now & -> & Hlt) _ IH]; simpl; [done|].
  by rewrite (check_invincible_early _ _ _ Hs Hlt).
Qed.

Lemma app_run_app self es1 es2 :
  app_run self (es1 ++ es2)
  = match app_run self es1 with
    | Ok self' => app_run self' es2
    | Raise x => Raise x
    end.
Proof.
  revert self. induction es1 as [|e es1 IH]; intros self; simpl.
  - by destruct (app_run self es2).
  - destruct (app_react self e); [apply IH|done].
Qed.

(** Picking up a star sets the flag and records the second clock reading. *)
Lemma pickup_star t1 t2 star self :
  item_class star = Star →
  _player_invincible (_handle_player_collide_item t1 t2 star self).1 = true ∧
  _start_invincible (_handle_player_collide_item t1 t2 star self).1 = Some t2.
Proof.
  intros Hstar. unfold _handle_player_collide_item, item_get_id, collect.
  rewrite Hstar. done.
Qed.

(** C5: picking up a star sets the invincibility flag at once and records
    the time [t2] of the pickup; polls of [check_invincible] less than 10
    seconds after [t2] leave the flag set, and the first poll at 10 seconds
    or more clears it; a second star picked up at [t2'] while invincible
    keeps the flag and moves the recorded time to [t2'], so that the flag
    is cleared by the first poll 10 seconds after [t2']. *)
Theorem star_invincibility
    (self : MarioApp) (star : DroppedItem) (t1 t2 : Q)
    (es : list app_event) (t : Q) :
  item_class star = Star →
  polls_before t2 es →
  (10 <= t - t2)%Q →
  let self1 := (_handle_player_collide_item t1 t2 star self).1 in
  _player_invincible self1 = true ∧
  _start_invincible self1 = Some t2 ∧
  app_run self1 es = Ok self1 ∧
  app_run self1 (es ++ [Poll t]) = Ok (set_player_invincible false self1) ∧
  ∀ star' t1' t2' t',
    item_class star' = Star →
    let self2 := (_handle_player_collide_item t1' t2' star' self1).1 in
    _player_invincible self2 = true ∧
    _start_invincible self2 = Some t2' ∧
    ((t' - t2' < 10)%Q → check_invincible t' self2 = Ok self2) ∧
    ((10 <= t' - t2')%Q →
     check_invincible t' self2 = Ok (set_player_invincible false self2)).
Proof.
  intros Hstar Hes Ht self1.
  destruct (pickup_star t1 t2 star self Hstar) as [Hi Hs].
  fold self1 in Hi, Hs.
  split; [done|]. split; [done|].
  split; [by eapply app_run_polls_before|].
  split.
  { rewrite app_run_app, (app_run_polls_before t2) by done. simpl.
    by rewrite (check_invincible_late _ t2). }
  intros star' t1' t2' t' Hstar' self2.
  destruct (pickup_star t1' t2' star' self1 Hstar') as [Hi' Hs'].
  fold self2 in Hi', Hs'.
  split; [done|]. split; [done|]. split.
  - intros Hlt. by eapply check_invincible_early.
  - intros Hle. by eapply check_invincible_late.
Qed.

End TimerFacts.

(** ** The collision handlers *)

Section HandlerFacts.
Import PyStr Mario.
Context `{GameLibrary}.

Lemma String_eqb_true (s : string) : String.eqb s s = true.
Proof. apply String.eqb_refl. Qed.

(** [on_hit] keeps the identifier of the block. *)
Lemma block_get_id_on_hit d now block self :
  block_get_id (on_hit d now block self).1 = block_get_id block.
Proof.
  destruct block as [ref [id|m| |s|]]; unfold on_hit; simpl; try done.
  by destruct (mystery_on_hit d m (_world self)).
Qed.


Lemma on_hit_jumping d now block self :
  _jumping (_player (on_hit d now block self).2) = _jumping (_player self).
Proof.
  destruct block as [ref [id|m| |s|]]; unfold on_hit; simpl; try done.
  - by destruct (mystery_on_hit d m (_world self)).
  - unfold BounceBlock_on_hit. by destruct (direction_eqb d DirA).
Qed.

Lemma reset_world_jumping level self :
  _jumping (_player (reset_world level self)) = _jumping (_player self).
Proof. done. Qed.

Lemma flagpole_contact_jumping d name self :
  _jumping (_player (flagpole_contact d name self).1) = _jumping (_player self).
Proof.
  unfold flagpole_contact.
  destruct name; destruct (direction_eqb d DirA); done.
Qed.

Lemma tunnel_contact_jumping d self :
  _jumping (_player (tunnel_contact d self).1) = _jumping (_player self).
Proof.
  unfold tunnel_contact.
  destruct (is_ducking self) as [[]|]; destruct (direction_eqb d DirA); done.
Qed.

(** The application that [_handle_player_collide_block] leaves behind. *)
Lemma player_collide_block_jumping d now name block self :
  _jumping (_player (_handle_player_collide_block d now name block self).1.2)
  = if direction_eqb d DirA then false else _jumping (_player self).
Proof.
  unfold _handle_player_collide_block.
  pose proof (on_hit_jumping d now block self) as Hj.
  destruct (on_hit d now block self) as [block' self0]. simpl in Hj.
  set (self1 := if direction_eqb d DirA
                then with_player (set_jumping false) self0 else self0).
  assert (_jumping (_player self1)
          = if direction_eqb d DirA then false else _jumping (_player self))
    as Hj1.
  { unfold self1. by destruct (direction_eqb d DirA). }
  destruct (String.eqb (block_get_id block') "flagpole").
  - pose proof (flagpole_contact_jumping d name self1) as Hf.
    destruct (flagpole_contact d name self1) as [self2 [[]|e]]; simpl in *;
      [|congruence].
    destruct (String.eqb (block_get_id block') "tunnel"); [|simpl; congruence].
    pose proof (tunnel_contact_jumping d self2) as Ht.
    destruct (tunnel_contact d self2) as [self3 [[]|e]]; simpl in *; congruence.
  - destruct (String.eqb (block_get_id block') "tunnel"); [|simpl; congruence].
    pose proof (tunnel_contact_jumping d self1) as Ht.
    destruct (tunnel_contact d self1) as [self3 [[]|e]]; simpl in *; congruence.
Qed.

(** C6, as amended: a player-block contact from Above leaves the jumping
    flag cleared when the begin-contact handler ends, whichever block it is
    and whether the handler returns or raises; the separate-contact handler
    changes nothing and returns [True]. *)
Theorem jumping_flag_maintenance :
  (∀ now name block self,
     _jumping
       (_player (_handle_player_collide_block DirA now name block self).1.2)
     = false) ∧
  (∀ block self, _handle_player_separate_block block self = (self, true)).
Proof.
  split; [|done]. intros. by rewrite player_collide_block_jumping.
Qed.

(** *** Mobs against blocks *)

(** By the letter of the direction: a mob-block contact sets the tempo of
    the mob to -35 on 'L' and to 35 on 'R', whatever it was, and leaves it as
    it is on 'A' and 'B'. *)
Lemma mob_collide_block_tempo d mob block self :
  tempo (_handle_mob_collide_block d mob block self).1.1
  = match d with
    | DirL => -35
    | DirR => 35
    | DirA | DirB => tempo mob
    end.
Proof. unfold _handle_mob_collide_block. by destruct d. Qed.

(** C2: a lateral mob-block contact sets the tempo of the mob to the fixed
    magnitude 35 with the sign opposite the side of the mob that is struck:
    struck on its left side the mob gets the positive tempo 35 (it moves
    right), struck on its right side the negative tempo -35 (it moves left),
    whatever its tempo was before and whatever the mob and the block are; a
    contact on its top or bottom leaves the tempo as it is. *)
Theorem mob_collide_block_opposite_struck_side d mob block self :
  let mob' := (_handle_mob_collide_block d mob block self).1.1 in
  match struck_side d with
  | LeftSide => tempo mob' = 35 ∧ 0 < tempo mob'
  | RightSide => tempo mob' = -35 ∧ tempo mob' < 0
  | TopSide | BottomSide => tempo mob' = tempo mob
  end.
Proof. unfold _handle_mob_collide_block. by destruct d. Qed.

(** *** The flagpole *)

Lemma flagpole_id_not_tunnel id :
  String.eqb id "flagpole" = true → String.eqb id "tunnel" = false.
Proof. intros ->%String.eqb_eq. done. Qed.


(** *** Mushrooms *)

(** What C1 says of a lateral hit, apart from the tempo: the health goes
    down by one (not below zero) and the player is knocked back. *)
Lemma mushroom_contact_lateral d mob self :
  _player_invincible self = false →
  d = DirL ∨ d = DirR →
  let self' := (mushroom_contact d mob self).2 in
  get_health (_player self')
  = Z.max 0 (Z.min (get_max_health (_player self)) (get_health (_player self) - 1)) ∧
  velocity (_player self') = ((if direction_eqb d DirL then -100 else 100), 0) ∧
  tempo (mushroom_contact d mob self).1 = -35.
Proof.
  intros Hi [-> | ->]; unfold mushroom_contact; rewrite Hi; simpl;
    by rewrite Hi.
Qed.

(** What C1 says of a hit from Above. *)
Lemma mushroom_contact_above mob self :
  let self' := (mushroom_contact DirA mob self).2 in
  (mob_ref mob ∉ mobs (_world self')) ∧
  velocity (_player self') = (0, -100) ∧
  get_health (_player self') = get_health (_player self).
Proof.
  unfold mushroom_contact. destruct (_player_invincible self); simpl.
  all: split; [|done].
  all: unfold remove_ref; rewrite list_elem_of_filter; tauto.
Qed.

(** C10: when an invincible player stomps a mushroom, the handler calls
    [remove_mob] on it in the invincibility branch and again in the Above
    branch; the second call meets a world from which the first has taken
    the mushroom already. The calls that follow are those of [retry] and
    remove nothing. *)
Theorem invincible_stomp_removes_twice query mob self :
  mob_id mob = "mushroom" →
  _player_invincible self = true →
  let once := with_player (set_velocity (0, -100)) (remove_mob mob self) in
  (_handle_player_collide_mob DirA query mob self).1.2
  = retry query (remove_mob mob once) ∧
  (mob_ref mob ∉ mobs (_world once)) ∧
  ∃ rest,
    calls (_handle_player_collide_mob DirA query mob self).1.2
    = calls self
      ++ [remove_mob_call (mob_ref mob); remove_mob_call (mob_ref mob)]
      ++ rest ∧
    remove_mob_call (mob_ref mob) ∉ rest.
Proof.
  intros Hid Hi once.
  assert ((_handle_player_collide_mob DirA query mob self).1.2
          = retry query (remove_mob mob once)) as Heq.
  { unfold _handle_player_collide_mob, player_mob_contact, mushroom_contact.
    rewrite Hid. simpl. by rewrite Hi. }
  split; [done|]. split.
  { simpl. unfold remove_ref. rewrite list_elem_of_filter. tauto. }
  rewrite Heq. unfold retry.
  destruct (get_health (_player (remove_mob mob once)) =? 0).
  - destruct query.
    + exists [askquestion_call; load_world_call (current_level self)].
      split; [simpl; by rewrite <- !app_assoc|].
      rewrite !elem_of_cons, elem_of_nil. intros [|[|[]]]; done.
    + exists [askquestion_call; destroy_call].
      split; [simpl; by rewrite <- !app_assoc|].
      rewrite !elem_of_cons, elem_of_nil. intros [|[|[]]]; done.
  - exists []. split; [simpl; by rewrite <- !app_assoc|]. apply not_elem_of_nil.
Qed.

(** *** The return values *)

Lemma on_hit_is_ducking d now block self :
  is_ducking (on_hit d now block self).2 = is_ducking self.
Proof.
  destruct block as [ref [id|m| |s|]]; unfold on_hit; simpl; try done.
  by destruct (mystery_on_hit d m (_world self)).
Qed.

Lemma player_collide_block_result d now name block self :
  (_handle_player_collide_block d now name block self).2
  = if String.eqb (block_get_id block) "flagpole" then
      match name with
      | Some _ => Ok true
      | None => Raise TypeError
      end
    else if String.eqb (block_get_id block) "tunnel" then
      match is_ducking self with
      | Some _ => Ok true
      | None => Raise AttributeError
      end
    else Ok true.
Proof.
  unfold _handle_player_collide_block.
  pose proof (block_get_id_on_hit d now block self) as Hid.
  pose proof (on_hit_is_ducking d now block self) as Hduck.
  destruct (on_hit d now block self) as [block' self0]. simpl in Hid, Hduck.
  rewrite Hid.
  destruct (String.eqb (block_get_id block) "flagpole") eqn:Hflag.
  - rewrite (flagpole_id_not_tunnel _ Hflag).
    unfold flagpole_contact. by destruct name.
  - destruct (String.eqb (block_get_id block) "tunnel"); [|done].
    unfold tunnel_contact.
    destruct d; simpl; rewrite Hduck; by destruct (is_ducking self) as [[]|].
Qed.

(** What holds of the solidity table: the player-item, mob-mob and
    mob-item handlers always return [False], the player-mob and mob-block
    handlers always return [True]; the player-block handler returns [True]
    unless it raises, which it does on a flagpole when the name dialog is
    cancelled and on a tunnel when no key has set [is_ducking] yet. *)
Lemma handlers_solidity :
  (∀ t1 t2 item self,
     (_handle_player_collide_item t1 t2 item self).2 = false) ∧
  (∀ d12 d21 mob1 mob2 self,
     (_handle_mob_collide_mob d12 d21 mob1 mob2 self).2 = false) ∧
  (∀ mob item self, (_handle_mob_collide_item mob item self).2 = false) ∧
  (∀ d query mob self,
     (_handle_player_collide_mob d query mob self).2 = true) ∧
  (∀ d mob block self,
     (_handle_mob_collide_block d mob block self).2 = true) ∧
  (∀ d now name block self,
     (_handle_player_collide_block d now name block self).2
     = if String.eqb (block_get_id block) "flagpole" then
         match name with
         | Some _ => Ok true
         | None => Raise TypeError
         end
       else if String.eqb (block_get_id block) "tunnel" then
         match is_ducking self with
         | Some _ => Ok true
         | None => Raise AttributeError
         end
       else Ok true).
Proof.
  split; [done|]. split.
  { intros d12 d21 mob1 mob2 self. unfold _handle_mob_collide_mob.
    by destruct (String.eqb (mob_id mob1) "mushroom"
                 || String.eqb (mob_id mob2) "mushroom"). }
  split; [done|]. split.
  { intros d query mob self. unfold _handle_player_collide_mob.
    by destruct (player_mob_contact d mob self). }
  split; [done|]. apply player_collide_block_result.
Qed.

(** *** The retry dialog *)

Lemma count_askquestion_snoc cs c :
  count_askquestion (cs ++ [c])
  = (count_askquestion cs + if is_askquestion c then 1 else 0)%nat.
Proof.
  unfold count_askquestion. rewrite List.filter_app, length_app. simpl.
  by destruct (is_askquestion c).
Qed.

(** The contact itself opens no dialog. *)
Lemma player_mob_contact_dialogs d mob self :
  count_askquestion (calls (player_mob_contact d mob self).2)
  = count_askquestion (calls self).
Proof.
  unfold player_mob_contact, mushroom_contact.
  destruct self as [p w level [] t0 duck text cs];
    destruct (String.eqb (mob_id mob) "fireball"),
             (String.eqb (mob_id mob) "mushroom"), d; simpl;
    rewrite ?count_askquestion_snoc; simpl; lia.
Qed.

(** C8: at the end of every player-mob contact the retry dialog is shown
    once if the health of the player is then exactly 0, and not at all if
    it is above 0; the handler returns [True] in both cases. On "yes" the
    level is reset and the health is back at the maximum, so that no second
    dialog follows; on "no" the window is destroyed. *)
Theorem retry_dialog d query mob self :
  let self1 := (player_mob_contact d mob self).2 in
  let self' := (_handle_player_collide_mob d query mob self).1.2 in
  (_handle_player_collide_mob d query mob self).2 = true ∧
  count_askquestion (calls self')
  = (count_askquestion (calls self)
     + if (get_health (_player self1) =? 0)%Z then 1 else 0)%nat ∧
  (0 < get_health (_player self1) → self' = self1) ∧
  (get_health (_player self1) = 0 → query = yes →
     self' = reset_level (record_call askquestion_call self1) ∧
     get_health (_player self') = get_max_health (_player self1) ∧
     (0 < get_max_health (_player self1) → ∀ query', retry query' self' = self')) ∧
  (get_health (_player self1) = 0 → query = no →
     self' = quit (record_call askquestion_call self1)).
Proof.
  intros self1 self'.
  pose proof (player_mob_contact_dialogs d mob self) as Hcount.
  fold self1 in Hcount.
  assert (self' = retry query self1) as Hself'.
  { unfold self', self1, _handle_player_collide_mob.
    by destruct (player_mob_contact d mob self). }
  split.
  { unfold _handle_player_collide_mob.
    by destruct (player_mob_contact d mob self). }
  rewrite Hself'. unfold retry.
  destruct (get_health (_player self1) =? 0) eqn:Hz.
  - apply Z.eqb_eq in Hz. split.
    { destruct query; simpl; rewrite ?count_askquestion_snoc; simpl; lia. }
    split; [lia|]. split; [|by intros _ ->].
    intros _ ->. split; [done|]. split; [done|].
    intros Hmax query'.
    change (get_health (_player (reset_level (record_call askquestion_call self1))))
      with (get_max_health (_player self1)).
    by destruct (Z.eqb_spec (get_max_health (_player self1)) 0); [lia|].
  - apply Z.eqb_neq in Hz. split; [lia|]. split; [done|]. split; lia.
Qed.

End HandlerFacts.

(** ** The handlers on a game *)

Section Examples.
Import PyStr Mario.

(** C1: a mushroom that already walks to the left (tempo -35) is hit from
    the Left by a player with 20 health who is not invincible. The player
    loses one health and is knocked back to the left, and the tempo of the
    mushroom is set to -35 again: its sign does not flip, and the mushroom
    follows the player. A hit from the Right sets the same -35. *)
Lemma mushroom_lateral_hit_keeps_tempo :
  let mob := set_tempo (-35) (MushroomMob 4) in
  let hitL := @_handle_player_collide_mob example_library DirL yes mob example_app in
  let hitR := @_handle_player_collide_mob example_library DirR yes mob example_app in
  tempo hitL.1.1 = -35 ∧
  velocity (_player hitL.1.2) = (-100, 0) ∧
  get_health (_player hitL.1.2) = 19 ∧
  tempo hitR.1.1 = -35 ∧
  velocity (_player hitR.1.2) = (100, 0) ∧
  get_health (_player hitR.1.2) = 19.
Proof. by vm_compute. Qed.

(** A mushroom that walks to the right (tempo 45) runs into a brick on
    its right, so that it is to the left of the brick ('L'), and turns back
    with tempo -35; coming from the other side it leaves with tempo 35. *)
Lemma mob_collide_block_turns_back :
  tempo (@_handle_mob_collide_block example_library
           DirL (MushroomMob 4) brick example_app).1.1 = -35 ∧
  tempo (@_handle_mob_collide_block example_library
           DirR (set_tempo (-35) (MushroomMob 4)) brick example_app).1.1 = 35.
Proof. by vm_compute. Qed.

(** C7: the player-block handler does not always return [True]. When the
    game starts on a tunnel block, before any key press, the contact raises
    [AttributeError]; on a flagpole, when the name dialog is cancelled, the
    contact raises [TypeError]. In both cases the handler returns nothing,
    where its docstring and the solidity table say [True]. *)
Lemma player_collide_block_raises :
  (@_handle_player_collide_block example_library
     DirA 0 None (mkBlock 2 (PlainBlock "tunnel")) example_app).2
  = Raise AttributeError ∧
  (@_handle_player_collide_block example_library
     DirA 0 None flagpole (_duck example_app)).2
  = Raise TypeError.
Proof. by vm_compute. Qed.



(** Witness of C5: a star picked up at 100 s, polls at 101 s, 109.99 s and
    110 s. *)
Lemma star_invincibility_witness :
  let self1 := (_handle_player_collide_item 100 100 (mkItem 6 Star) example_app).1 in
  app_run self1 ([Poll 101; Poll 109.99] ++ [Poll 110])
  = Ok (set_player_invincible false self1).
Proof.
  apply (star_invincibility example_app (mkItem 6 Star) 100 100
           [Poll 101; Poll 109.99] 110).
  - reflexivity.
  - repeat (constructor; [eexists; split; reflexivity|]). constructor.
  - discriminate.
Defined.

(** C6 as stated fails: when the player leaves a brick, the flag is what it
    was, set after a jump and clear after a walk off the edge. *)
Lemma separate_block_keeps_jumping :
  _jumping (_player (_handle_player_separate_block brick (_jump example_app)).1)
  = true ∧
  _jumping (_player (_handle_player_separate_block brick example_app).1)
  = false.
Proof. by vm_compute. Qed.

(** Witness of C8: the last health point is lost to a mushroom and the
    player answers "yes". *)
Lemma retry_dialog_witness :
  let self := with_player (set_health 1) example_app in
  let self' := (@_handle_player_collide_mob example_library
                  DirL yes (MushroomMob 4) self).1.2 in
  count_askquestion (calls self') = 1%nat ∧ get_health (_player self') = 20.
Proof.
  destruct (@retry_dialog example_library DirL yes (MushroomMob 4)
              (with_player (set_health 1) example_app))
    as (_ & Hcount & _ & Hyes & _).
  split; [exact Hcount|].
  exact (proj1 (proj2 (Hyes eq_refl eq_refl))).
Defined.

(** Witness of C10: the invincible player stomps mushroom 4. *)
Lemma invincible_stomp_removes_twice_witness :
  let self := set_player_invincible true example_app in
  (4%nat ∉ mobs (_world (with_player (set_velocity (0, -100))
                           (remove_mob (MushroomMob 4) self)))) ∧
  calls (@_handle_player_collide_mob example_library
           DirA yes (MushroomMob 4) self).1.2
  = [remove_mob_call 4; remove_mob_call 4].
Proof.
  destruct (@invincible_stomp_removes_twice example_library yes (MushroomMob 4)
              (set_player_invincible true example_app) eq_refl eq_refl)
    as (_ & Hgone & _).
  split; [exact Hgone|]. reflexivity.
Defined.

End Examples.

(** * Further properties *)

(** ** Strings *)

Section StringFacts.
Import PyStr.

Lemma app_cons a s t : String a s +:+ t = String a (s +:+ t).
Proof. reflexivity. Qed.

Lemma app_nil_r s : s +:+ "" = s.
Proof. induction s as [|a s IH]; [done|]. by rewrite app_cons, IH. Qed.

Lemma app_assoc_str s1 s2 s3 : (s1 +:+ s2) +:+ s3 = s1 +:+ (s2 +:+ s3).
Proof. induction s1 as [|a s1 IH]; [done|]. by rewrite !app_cons, IH. Qed.

Lemma rev_app_spec s1 s2 : String.rev_app s1 s2 = String.rev s1 +:+ s2.
Proof.
  unfold String.rev. revert s2.
  induction s1 as [|a s1 IH]; intros s2; simpl; [done|].
  rewrite IH, (IH (String a "")). by rewrite app_assoc_str.
Qed.

Lemma rev_cons a s : String.rev (String a s) = String.rev s +:+ String a "".
Proof. unfold String.rev at 1. simpl. apply rev_app_spec. Qed.

Lemma rev_snoc s a : String.rev (s +:+ String a "") = String a (String.rev s).
Proof.
  induction s as [|b s IH]; [done|].
  by rewrite app_cons, !rev_cons, IH, app_cons.
Qed.

Lemma rev_involutive s : String.rev (String.rev s) = s.
Proof.
  induction s as [|a s IH]; [done|]. by rewrite rev_cons, rev_snoc, IH.
Qed.

Lemma length_app_str s t :
  String.length (s +:+ t) = (String.length s + String.length t)%nat.
Proof. induction s as [|a s IH]; [done|]. rewrite app_cons. simpl. by rewrite IH. Qed.

Lemma length_rev s : String.length (String.rev s) = String.length s.
Proof.
  induction s as [|a s IH]; [done|].
  rewrite rev_cons, length_app_str, IH. simpl. lia.
Qed.

Lemma lstrip_length s : (String.length (lstrip s) ≤ String.length s)%nat.
Proof.
  induction s as [|a s IH]; simpl; [done|].
  destruct (is_space a); simpl; lia.
Qed.

(** A string that [lstrip] leaves alone is empty or starts with a character
    that is no white space. *)
Lemma lstrip_fixed a s : lstrip (String a s) = String a s → is_space a = false.
Proof.
  simpl. destruct (is_space a); [|done]. intros Heq.
  pose proof (lstrip_length s) as Hlen. rewrite Heq in Hlen. simpl in Hlen. lia.
Qed.

Lemma lstrip_idemp s : lstrip (lstrip s) = lstrip s.
Proof.
  induction s as [|a s IH]; simpl; [done|].
  destruct (is_space a) eqn:Ha; [done|]. simpl. by rewrite Ha.
Qed.

Lemma lstrip_snoc s c :
  is_space c = false → lstrip (s +:+ String c "") = lstrip s +:+ String c "".
Proof.
  intros Hc. induction s as [|a s IH].
  - simpl. by rewrite Hc.
  - rewrite app_cons. simpl. destruct (is_space a); [done|]. by rewrite app_cons.
Qed.

Lemma rstrip_keeps_head t : lstrip t = t → lstrip (rstrip t) = rstrip t.
Proof.
  destruct t as [|c t]; [done|]. intros Hc%lstrip_fixed.
  unfold rstrip. rewrite rev_cons, lstrip_snoc, rev_snoc by done.
  simpl. by rewrite Hc.
Qed.

Lemma rstrip_idemp t : rstrip (rstrip t) = rstrip t.
Proof. unfold rstrip. by rewrite rev_involutive, lstrip_idemp. Qed.

(** [strip] of a stripped string changes nothing. *)
Lemma strip_idemp s : strip (strip s) = strip s.
Proof.
  unfold strip.
  rewrite (rstrip_keeps_head (lstrip s)) by apply lstrip_idemp.
  apply rstrip_idemp.
Qed.

Lemma count_app c s t : count c (s +:+ t) = (count c s + count c t)%nat.
Proof.
  induction s as [|a s IH]; [done|]. rewrite app_cons. simpl. rewrite IH. lia.
Qed.

Lemma count_rev c s : count c (String.rev s) = count c s.
Proof.
  induction s as [|a s IH]; [done|].
  rewrite rev_cons, count_app, IH. simpl. lia.
Qed.

Lemma count_lstrip c s : (count c (lstrip s) ≤ count c s)%nat.
Proof.
  induction s as [|a s IH]; simpl; [done|].
  destruct (is_space a); simpl; lia.
Qed.

Lemma count_strip c s : (count c (strip s) ≤ count c s)%nat.
Proof.
  unfold strip, rstrip. rewrite count_rev.
  etrans; [apply count_lstrip|]. rewrite count_rev. apply count_lstrip.
Qed.

(** The parts that [split] returns hold no separator. *)
Lemma split_parts c s : Forall (λ w, count c w = 0%nat) (split c s).
Proof.
  induction s as [|a s IH]; simpl.
  - by repeat constructor.
  - destruct (Ascii.eqb a c) eqn:Ha; [by constructor|].
    destruct (split c s) as [|w ws].
    + constructor; [|done]. simpl. by rewrite Ha.
    + inversion IH as [|? ? Hw Hws]; subst.
      constructor; [|done]. simpl. by rewrite Ha.
Qed.

Lemma prefix_eq_cons a s :
  String.prefix "=" (String a s) = true → a = "="%char.
Proof.
  cbn [String.prefix]. by destruct (ascii_dec "=" a) as [<-|].
Qed.

(** A header is the single character '=' or has the shape '=' name '='. *)
Lemma header_shape s :
  Config.is_header s = true →
  (s = "=" ∧ slice_1_m1 s = "") ∨ s = "=" +:+ slice_1_m1 s +:+ "=".
Proof.
  unfold Config.is_header, startswith, endswith.
  intros [Hs He]%andb_true_iff.
  destruct s as [|a s]; [done|]. apply prefix_eq_cons in Hs as ->.
  change (String.rev "=") with "=" in He.
  destruct s as [|b s]; [by left|]. right.
  unfold slice_1_m1.
  destruct (String.rev (String "=" (String b s))) as [|z r] eqn:Hrev.
  { apply (f_equal String.length) in Hrev. by rewrite length_rev in Hrev. }
  apply prefix_eq_cons in He as ->. cbn [drop_first].
  apply (f_equal String.rev) in Hrev.
  rewrite rev_involutive, rev_cons in Hrev.
  destruct (String.rev r) as [|y m] eqn:Hr.
  { apply (f_equal String.length) in Hrev. simpl in Hrev. lia. }
  rewrite app_cons in Hrev. injection Hrev as <- ->. done.
Qed.

End StringFacts.

(** ** More on the configuration reader *)

Section ConfigMore.
Import PyStr Config Startup.

(** The three things a line can do to the loop state. *)
Lemma read_line_cases cfg hd line :
  heading_known (cfg, hd) →
  (is_header (strip line) = true ∧
   read_line (cfg, hd) line
   = Ok (<[slice_1_m1 (strip line) := ∅]> cfg, Some (slice_1_m1 (strip line))))
  ∨ (is_header (strip line) = false ∧
     ∃ h entries name value,
       hd = Some h ∧ cfg !! h = Some entries ∧
       count ":" (strip line) = 1%nat ∧
       split ":" (strip line) = [name; value] ∧
       read_line (cfg, hd) line
       = Ok (<[h := <[strip name := strip value]> entries]> cfg, hd))
  ∨ (is_header (strip line) = false ∧
     ¬ (count ":" (strip line) = 1%nat ∧ hd ≠ None) ∧
     read_line (cfg, hd) line = Ok (cfg, hd)).
Proof.
  intros Hk. destruct (is_header (strip line)) eqn:Hh.
  { left. split; [done|]. by apply read_line_header. }
  right.
  destruct (decide (count ":" (strip line) = 1%nat ∧ hd ≠ None)) as [[Hc Hd]|Hn].
  - left. split; [done|]. destruct hd as [h|]; [|done].
    destruct (Hk h eq_refl) as [entries Hs]. simpl in Hs.
    destruct (split_one _ _ Hc) as (name & value & Hsp).
    exists h, entries, name, value. repeat split; try done.
    by apply read_line_entry.
  - right. split; [done|]. split; [done|]. by apply read_line_skip.
Qed.

Lemma read_lines_app st l1 l2 :
  read_lines st (l1 ++ l2)
  = match read_lines st l1 with
    | Ok st' => read_lines st' l2
    | Raise e => Raise e
    end.
Proof.
  revert st. induction l1 as [|l l1 IH]; intros st; simpl; [done|].
  destruct (read_line st l); [apply IH|done].
Qed.

Lemma header_names_cons l ls :
  header_names (l :: ls)
  = (if is_header (strip l) then [slice_1_m1 (strip l)] else [])
    ++ header_names ls.
Proof. unfold header_names. simpl. by destruct (is_header (strip l)). Qed.

Lemma read_lines_sections lines st st' :
  heading_known st →
  read_lines st lines = Ok st' →
  (∀ h, is_Some (st'.1 !! h) ↔ is_Some (st.1 !! h) ∨ h ∈ header_names lines) ∧
  st'.2 = match last (header_names lines) with
          | Some h => Some h
          | None => st.2
          end.
Proof.
  revert st. induction lines as [|l lines IH]; intros [cfg hd] Hk.
  { simpl. intros [= <-]. split; [|done]. intros h. rewrite elem_of_nil. tauto. }
  cbn [read_lines].
  destruct (read_line_ok (cfg, hd) l Hk) as (st1 & Hl & Hk1). rewrite Hl.
  intros Hrest. destruct (IH _ Hk1 Hrest) as [Hdom Hhd].
  rewrite header_names_cons, last_app.
  destruct (read_line_cases cfg hd l Hk)
    as [[Hh Heq]|[(Hh & h0 & e0 & n0 & v0 & -> & He & _ & _ & Heq)|(Hh & _ & Heq)]];
    rewrite Heq in Hl; injection Hl as <-; rewrite Hh; simpl in *.
  - split.
    + intros h. rewrite Hdom, elem_of_cons, lookup_insert_is_Some.
      destruct (decide (slice_1_m1 (strip l) = h)) as [<-|Hne]; [tauto|].
      split; [tauto|]. intros [?|[->|?]]; tauto.
    + rewrite Hhd. by destruct (last (header_names lines)).
  - split; [|rewrite Hhd; by destruct (last (header_names lines))].
    intros h. rewrite Hdom, lookup_insert_is_Some.
    destruct (decide (h0 = h)) as [<-|]; [|tauto].
    assert (is_Some (cfg !! h0)) by (rewrite He; eauto). tauto.
  - split; [done|]. rewrite Hhd. by destruct (last (header_names lines)).
Qed.

Lemma read_config_file_sections (lines : list string) :
  ∃ cfg, read_config_file lines = Ok cfg ∧
         ∀ h, is_Some (cfg !! h) ↔ h ∈ header_names lines.
Proof.
  unfold read_config_file.
  destruct (read_lines_ok (∅, None) lines heading_known_init)
    as ([cfg hd] & Hr & _).
  rewrite Hr. exists cfg. split; [done|]. intros h.
  destruct (read_lines_sections _ _ _ heading_known_init Hr) as [Hdom _].
  rewrite Hdom. simpl. rewrite lookup_empty. split; [|by right].
  intros [[? [=]]|]; done.
Qed.

(** X1: over the lines of a file that was opened and read, the loop of
    [read_config_file] raises neither on a look-up nor on the unpacking of
    [split], and the sections of the result are exactly the names of the
    header lines. *)
Theorem read_config_sections (lines : list string) :
  ∃ cfg, read_config_file lines = Ok cfg ∧
         ∀ h, is_Some (cfg !! h) ↔ h ∈ header_names lines.
Proof. apply read_config_file_sections. Qed.

Lemma read_lines_no_header cfg pre :
  Forall (λ l, is_header (strip l) = false) pre →
  read_lines (cfg, None) pre = Ok (cfg, None).
Proof.
  induction 1 as [|l pre Hl _ IH]; simpl; [done|].
  rewrite read_line_skip; [done..|]. by intros [_ ?].
Qed.

(** X2: the lines before the first header line do not count: with or
    without them the result is the same. *)
Theorem read_config_before_first_header (pre rest : list string) :
  Forall (λ l, is_header (strip l) = false) pre →
  read_config_file (pre ++ rest) = read_config_file rest.
Proof.
  intros Hpre. unfold read_config_file.
  by rewrite read_lines_app, read_lines_no_header.
Qed.

Lemma line_key_entry l name value :
  is_header (strip l) = false →
  split ":" (strip l) = [name; value] →
  line_key l = Some (strip name).
Proof.
  intros Hh Hsp. unfold line_key. rewrite Hh, Hsp.
  pose proof (length_split ":" (strip l)) as Hlen. rewrite Hsp in Hlen.
  simpl in Hlen. injection Hlen as <-. done.
Qed.

Lemma read_lines_keeps_entry post cfg h entries k v :
  cfg !! h = Some entries →
  entries !! k = Some v →
  Forall (λ l, is_header (strip l) = false ∧ line_key l ≠ Some k) post →
  ∃ cfg' entries',
    read_lines (cfg, Some h) post = Ok (cfg', Some h) ∧
    cfg' !! h = Some entries' ∧ entries' !! k = Some v.
Proof.
  intros Hs Hkv Hpost. revert cfg entries Hs Hkv.
  induction Hpost as [|l post [Hh Hkey] _ IH]; intros cfg entries Hs Hkv.
  { exists cfg, entries. by repeat split. }
  cbn [read_lines].
  assert (heading_known (cfg, Some h)) as Hk.
  { intros h' [= <-]. simpl. rewrite Hs. eauto. }
  destruct (read_line_cases cfg (Some h) l Hk)
    as [[Hh' _]|[(_ & h0 & e0 & n0 & v0 & [= <-] & He & _ & Hsp & ->)|(_ & _ & ->)]].
  - congruence.
  - rewrite Hs in He. injection He as <-.
    apply (IH _ (<[strip n0 := strip v0]> entries)).
    + apply lookup_insert_eq.
    + rewrite lookup_insert_ne; [done|].
      intros Heq. apply Hkey. rewrite (line_key_entry l n0 v0) by done.
      by rewrite Heq.
  - by apply (IH _ entries).
Qed.

(** X3: an entry line under the heading [h] is found again in the result,
    under [h] and its stripped name, with its stripped value, when no later
    line is a header or binds the same name. *)
Theorem read_config_entry_survives
    (pre post : list string) (line h name value : string) :
  last_heading pre = Some h →
  is_header (strip line) = false →
  split ":" (strip line) = [name; value] →
  Forall (λ l, is_header (strip l) = false ∧ line_key l ≠ Some (strip name))
         post →
  ∃ cfg, read_config_file (pre ++ line :: post) = Ok cfg ∧
         config_get cfg h (strip name) = Ok (strip value).
Proof.
  intros Hlast Hh Hsp Hpost.
  destruct (read_lines_ok (∅, None) pre heading_known_init)
    as ([cfg0 hd0] & Hpre & Hk0).
  destruct (read_lines_sections _ _ _ heading_known_init Hpre) as [_ Hhd].
  unfold last_heading in Hlast. simpl in Hhd. rewrite Hlast in Hhd. subst hd0.
  destruct (Hk0 h eq_refl) as [e0 He0]. simpl in He0.
  assert (count ":" (strip line) = 1%nat) as Hc.
  { pose proof (length_split ":" (strip line)) as Hlen. rewrite Hsp in Hlen.
    simpl in Hlen. by injection Hlen as <-. }
  destruct (read_lines_keeps_entry post
              (<[h := <[strip name := strip value]> e0]> cfg0) h
              (<[strip name := strip value]> e0) (strip name) (strip value))
    as (cfg' & entries' & Hrun & Hs & Hkv); [apply lookup_insert_eq..|done|].
  exists cfg'. unfold read_config_file.
  rewrite read_lines_app, Hpre. cbn [read_lines].
  rewrite (read_line_entry _ _ _ _ _ _ Hh Hc He0 Hsp), Hrun.
  split; [done|]. unfold config_get. by rewrite Hs, Hkv.
Qed.

Lemma read_lines_invariant (P : state → Prop) lines st :
  (∀ st line st',
     heading_known st → P st → read_line st line = Ok st' → P st') →
  heading_known st → P st →
  ∃ st', read_lines st lines = Ok st' ∧ P st'.
Proof.
  intros Hstep. revert st.
  induction lines as [|l lines IH]; intros st Hk HP; simpl; [eauto|].
  destruct (read_line_ok st l Hk) as (st1 & Hl & Hk1). rewrite Hl.
  apply IH; [done|]. exact (Hstep _ _ _ Hk HP Hl).
Qed.

Lemma clean_entries_step st line st' :
  heading_known st → clean_entries st.1 →
  read_line st line = Ok st' → clean_entries st'.1.
Proof.
  destruct st as [cfg hd]. intros Hk Hclean.
  destruct (read_line_cases cfg hd line Hk)
    as [[_ ->]|[(_ & h0 & e0 & n0 & v0 & -> & He & _ & Hsp & ->)|(_ & _ & ->)]];
    intros [= <-]; simpl in *; [| |done].
  - intros h entries k v. rewrite lookup_insert_Some.
    intros [[_ <-]|[_ Hs]]; [by rewrite lookup_empty|]. by apply (Hclean h).
  - intros h entries k v. rewrite lookup_insert_Some.
    intros [[_ <-]|[_ Hs]]; [|by apply (Hclean h)].
    rewrite lookup_insert_Some. intros [[<- <-]|[_ Hkv]]; [|by apply (Hclean h0 e0)].
    pose proof (split_parts ":" (strip line)) as Hparts. rewrite Hsp in Hparts.
    inversion Hparts as [|? ? Hn Hrest]; subst.
    inversion Hrest as [|? ? Hv _]; subst.
    pose proof (count_strip ":" n0). pose proof (count_strip ":" v0).
    unfold trimmed. rewrite !strip_idemp. repeat split; [done..|lia|lia].
Qed.

(** X4: every key and every value of the result is stripped at both ends
    and holds no ':'. *)
Theorem read_config_entries_clean (lines : list string) :
  ∃ cfg, read_config_file lines = Ok cfg ∧ clean_entries cfg.
Proof.
  destruct (read_lines_invariant (λ st, clean_entries st.1) lines (∅, None))
    as ([cfg hd] & Hr & Hclean).
  - apply clean_entries_step.
  - apply heading_known_init.
  - intros h entries k v Hs. simpl in Hs. by rewrite lookup_empty in Hs.
  - exists cfg. unfold read_config_file. by rewrite Hr.
Qed.

Lemma prefix_eq_true s : String.prefix "=" (String "=" s) = true.
Proof.
  cbn [String.prefix]. destruct (ascii_dec "=" "=") as [_|]; [|done].
  by destruct s.
Qed.

(** X5: a line '=' name '=' is a header whatever the name holds, and its
    section is called by that name; conversely a header other than the single
    character '=' is '=' followed by its name and '='. *)
Theorem header_name_round_trip :
  (∀ name, is_header ("=" +:+ name +:+ "=") = true ∧
           slice_1_m1 ("=" +:+ name +:+ "=") = name) ∧
  (∀ s, is_header s = true →
        (s = "=" ∧ slice_1_m1 s = "") ∨ s = "=" +:+ slice_1_m1 s +:+ "=").
Proof.
  split; [|apply header_shape].
  intros name.
  assert (String.rev ("=" +:+ name +:+ "=")
          = String "=" (String.rev (String "=" name))) as Hrev.
  { change ("=" +:+ name +:+ "=") with (String "=" name +:+ String "=" "").
    apply rev_snoc. }
  split.
  - unfold is_header, startswith, endswith. rewrite Hrev.
    change ("=" +:+ name +:+ "=") with (String "=" (name +:+ "=")).
    change (String.rev "=") with "=". by rewrite !prefix_eq_true.
  - unfold slice_1_m1. rewrite Hrev. cbn [drop_first].
    by rewrite rev_involutive.
Qed.

(** X6: [MarioApp.__init__] looks for the section "=World=": unless a line
    of the file strips to "==World==", the look-up of the gravity raises
    [KeyError]. *)
Theorem init_config_needs_world_section (lines : list string) :
  Forall (λ l, strip l ≠ "==World==") lines →
  init_config lines = Raise KeyError.
Proof.
  intros Hlines.
  destruct (read_config_file_sections lines) as (cfg & Hread & Hdom).
  unfold init_config, config_get. rewrite Hread.
  destruct (cfg !! "=World=") as [entries|] eqn:Hw; [|done].
  exfalso.
  assert ("=World=" ∈ header_names lines) as Hin.
  { apply Hdom. rewrite Hw. eauto. }
  unfold header_names in Hin. apply list_elem_of_omap in Hin as (l & Hl & Hf).
  destruct (is_header (strip l)) eqn:Hh; [|done]. injection Hf as Hname.
  rewrite Forall_forall in Hlines. apply (Hlines l Hl).
  destruct (header_shape _ Hh) as [[_ Hempty]|Heq].
  - by rewrite Hempty in Hname.
  - rewrite Heq. by rewrite Hname.
Qed.

End ConfigMore.

(** ** More on the handlers *)

Section HandlerMore.
Import PyStr Mario Game.
Context `{GameLibrary}.

Lemma not_elem_of_remove_ref ref l : ref ∉ remove_ref ref l.
Proof. unfold remove_ref. rewrite list_elem_of_filter. tauto. Qed.

Lemma elem_of_remove_ref r ref l : r ∈ remove_ref ref l ↔ r ∈ l ∧ r ≠ ref.
Proof. unfold remove_ref. rewrite list_elem_of_filter. tauto. Qed.

(** X7: while the player is invincible, a contact with a mob of any kind
    from any side leaves the health and the tempo of the mob as they are; a
    mushroom is taken out of the world, and with any other mob nothing
    changes at all. *)
Theorem invincible_contact d mob self :
  _player_invincible self = true →
  get_health (_player (player_mob_contact d mob self).2)
  = get_health (_player self) ∧
  tempo (player_mob_contact d mob self).1 = tempo mob ∧
  (mob_id mob = "mushroom" →
   mob_ref mob ∉ mobs (_world (player_mob_contact d mob self).2)) ∧
  (mob_id mob ≠ "mushroom" → player_mob_contact d mob self = (mob, self)).
Proof.
  intros Hi. unfold player_mob_contact, mushroom_contact.
  destruct self as [p w level inv t0 duck text cs]. simpl in Hi. subst inv.
  destruct (String.eqb_spec (mob_id mob) "fireball") as [Hf|Hf];
    destruct (String.eqb_spec (mob_id mob) "mushroom") as [Hm|Hm];
    try congruence; simpl.
  all: repeat split; try done.
  all: try (intros _; destruct d; simpl; try apply not_elem_of_remove_ref).
  all: try (destruct d; done).
  all: rewrite elem_of_remove_ref; intros [Hin _]; revert Hin;
    apply not_elem_of_remove_ref.
Qed.

(** X8: in a mob-block contact only a fireball changes the world: it is
    taken out itself, with the block when that is a brick, and no other
    block; the player is never touched. *)
Theorem mob_collide_block_world d mob block self :
  let self' := (_handle_mob_collide_block d mob block self).1.2 in
  _player self' = _player self ∧
  (mob_id mob ≠ "fireball" → self' = self) ∧
  (mob_id mob = "fireball" →
   (mob_ref mob ∉ mobs (_world self')) ∧
   (block_get_id block = "brick" → block_ref block ∉ blocks (_world self')) ∧
   (block_get_id block ≠ "brick" →
    blocks (_world self') = blocks (_world self))).
Proof.
  unfold _handle_mob_collide_block.
  destruct self as [p w level inv t0 duck text cs].
  destruct (String.eqb_spec (mob_id mob) "fireball") as [Hf|Hf];
    destruct (String.eqb_spec (block_get_id block) "brick") as [Hb|Hb];
    simpl; repeat split; try done.
  all: intros; apply not_elem_of_remove_ref.
Qed.

(** X9: in a mob-mob contact both mobs are taken out of the world when one
    of them is a fireball, and nothing is removed otherwise; the tempo of
    each mob is set by its own direction (-35 on Left, 35 on Right) when one
    of the two is a mushroom, and kept otherwise. *)
Theorem mob_collide_mob_effects d12 d21 mob1 mob2 self :
  let r := _handle_mob_collide_mob d12 d21 mob1 mob2 self in
  let fireball :=
    String.eqb (mob_id mob1) "fireball" || String.eqb (mob_id mob2) "fireball" in
  let mushroom :=
    String.eqb (mob_id mob1) "mushroom" || String.eqb (mob_id mob2) "mushroom" in
  (if fireball
   then (mob_ref mob1 ∉ mobs (_world r.1.2)) ∧
        (mob_ref mob2 ∉ mobs (_world r.1.2))
   else r.1.2 = self) ∧
  tempo r.1.1.1
  = (if mushroom
     then match d12 with DirL => -35 | DirR => 35 | _ => tempo mob1 end
     else tempo mob1) ∧
  tempo r.1.1.2
  = (if mushroom
     then match d21 with DirL => -35 | DirR => 35 | _ => tempo mob2 end
     else tempo mob2).
Proof.
  unfold _handle_mob_collide_mob.
  destruct self as [p w level inv t0 duck text cs].
  destruct (String.eqb (mob_id mob1) "fireball" || String.eqb (mob_id mob2) "fireball"),
           (String.eqb (mob_id mob1) "mushroom" || String.eqb (mob_id mob2) "mushroom");
    simpl; repeat split; try done.
  all: try (by destruct d12).
  all: try (by destruct d21).
  all: try apply not_elem_of_remove_ref.
  all: rewrite elem_of_remove_ref; intros [Hin _]; revert Hin;
    apply not_elem_of_remove_ref.
Qed.

(** [on_hit] touches the player and the world only, and not the jumping
    flag. *)
Lemma on_hit_fields d now block self :
  ∃ p' w',
    (on_hit d now block self).2
    = mkApp p' w' (current_level self) (_player_invincible self)
            (_start_invincible self) (is_ducking self) (highscores_txt self)
            (calls self) ∧
    _jumping p' = _jumping (_player self) ∧
    (block_class block ≠ BounceBlock → p' = _player self).
Proof.
  destruct self as [p w level inv t0 duck text cs].
  destruct block as [ref [id|m| |s|]]; unfold on_hit; simpl;
    try (by eexists _, _).
  - destruct (mystery_on_hit d m w). by eexists _, _.
  - eexists _, _. split; [done|]. split; [|done].
    unfold BounceBlock_on_hit. by destruct (direction_eqb d DirA).
Qed.

(** X10: a contact with a tunnel block returns [True] once a key has set
    [is_ducking]; it loads "level2.txt" exactly when the player is ducking
    and the contact is from Above, and never changes [current_level], so
    that a reset of the level afterwards loads the level the player came
    from. *)
Theorem tunnel_contact_level d now name block self ducking :
  block_get_id block = "tunnel" →
  is_ducking self = Some ducking →
  let r := _handle_player_collide_block d now name block self in
  r.2 = Ok true ∧
  current_level r.1.2 = current_level self ∧
  (if direction_eqb d DirA && ducking
   then _world r.1.2 = load_world "level2.txt" ∧
        calls r.1.2 = calls self ++ [load_world_call "level2.txt"] ∧
        _world (reset_level r.1.2) = load_world (current_level self)
   else calls r.1.2 = calls self).
Proof.
  intros Hid Hduck. unfold _handle_player_collide_block.
  pose proof (block_get_id_on_hit d now block self) as Hid'.
  destruct (on_hit_fields d now block self) as (p' & w' & Hfields & _).
  destruct (on_hit d now block self) as [block' self0]. simpl in *.
  rewrite Hid', Hid, Hfields. simpl. unfold tunnel_contact.
  destruct d, ducking; simpl; rewrite Hduck; simpl; done.
Qed.

Ltac frame_solve :=
  repeat split; unfold timer_set; simpl; intros; try done; eauto;
  try (by exists ""; rewrite app_nil_r); try (by eexists).

(** What no event does, one event at a time. *)
Lemma game_react_frame self e :
  (timer_set self → timer_set (game_react self e)) ∧
  (∃ suffix,
     highscores_txt (game_react self e) = highscores_txt self +:+ suffix) ∧
  (is_Some (is_ducking self) → is_Some (is_ducking (game_react self e))) ∧
  (not_landing e → _jumping (_player self) = true →
   _jumping (_player (game_react self e)) = true).
Proof.
  destruct e as [keysym| | |filename| |t1 t2 item|d now name block|block
                |d query mob|d mob block|mob item|d12 d21 mob1 mob2|now];
    cbn [game_react].
  - unfold _move.
    destruct (String.eqb keysym "d"), (String.eqb keysym "Right"),
             (String.eqb keysym "a"), (String.eqb keysym "Left");
      frame_solve.
  - unfold _jump. destruct (is_jumping (_player self)) eqn:Hj; frame_solve.
  - frame_solve.
  - frame_solve.
  - frame_solve.
  - unfold _handle_player_collide_item, collect, item_get_id.
    destruct (item_class item); frame_solve.
  - unfold _handle_player_collide_block.
    destruct (on_hit_fields d now block self) as (p' & w' & Hfields & Hj & _).
    destruct (on_hit d now block self) as [block' self0]. simpl in Hfields.
    subst self0. unfold flagpole_contact, tunnel_contact. simpl.
    destruct (String.eqb (block_get_id block') "flagpole"),
             (String.eqb (block_get_id block') "tunnel"),
             name, d, (is_ducking self) as [[]|]; frame_solve; congruence.
  - frame_solve.
  - unfold _handle_player_collide_mob, player_mob_contact, mushroom_contact, retry.
    destruct self as [p w level inv t0 duck text cs]; simpl.
    destruct (String.eqb (mob_id mob) "fireball"),
             (String.eqb (mob_id mob) "mushroom"), inv, d; simpl;
      match goal with
      | |- context [?h =? 0] => destruct (h =? 0)
      end; destruct query; frame_solve.
  - unfold _handle_mob_collide_block.
    destruct (String.eqb (mob_id mob) "fireball"),
             (String.eqb (block_get_id block) "brick"); frame_solve.
  - frame_solve.
  - unfold _handle_mob_collide_mob.
    destruct (String.eqb (mob_id mob1) "fireball" || String.eqb (mob_id mob2) "fireball"),
             (String.eqb (mob_id mob1) "mushroom" || String.eqb (mob_id mob2) "mushroom");
      frame_solve.
  - unfold check_invincible.
    destruct (_player_invincible self) eqn:Hi; [|frame_solve].
    destruct (_start_invincible self) eqn:Hs; [|frame_solve].
    destruct (Qle_bool 10 (now - q)); frame_solve.
Qed.

Lemma game_run_snoc self es e :
  game_run self (es ++ [e]) = game_react (game_run self es) e.
Proof. unfold game_run. by rewrite fold_left_app. Qed.

Lemma game_run_timer_set self es :
  timer_set self → timer_set (game_run self es).
Proof.
  revert self. induction es as [|e es IH]; intros self Hset; [done|].
  apply IH. by apply game_react_frame.
Qed.

(** X11: whatever happens to the application (keys, menu entries, contacts,
    polls), the start of the star timer is set whenever the flag is, so
    that the poll of [check_invincible] never fails on the unset
    attribute. *)
Theorem check_invincible_never_raises self es now :
  timer_set self →
  ∃ self', check_invincible now (game_run self es) = Ok self'.
Proof.
  intros Hset%(game_run_timer_set _ es). unfold check_invincible.
  destruct (_player_invincible (game_run self es)) eqn:Hi; [|eauto].
  destruct (Hset Hi) as [t0 ->].
  destruct (Qle_bool 10 (now - t0)); eauto.
Qed.

(** X12: the high-score file is only ever appended to: after any events
    its content starts with the content it had before. *)
Theorem highscores_append_only self es :
  ∃ suffix, highscores_txt (game_run self es) = highscores_txt self +:+ suffix.
Proof.
  revert self. induction es as [|e es IH]; intros self.
  { exists "". by rewrite app_nil_r. }
  destruct (game_react_frame self e) as (_ & [s1 Hs1] & _).
  destruct (IH (game_react self e)) as [s2 Hs2].
  exists (s1 +:+ s2).
  change (game_run self (e :: es)) with (game_run (game_react self e) es).
  by rewrite Hs2, Hs1, app_assoc_str.
Qed.

Lemma game_run_is_ducking self es :
  is_Some (is_ducking self) → is_Some (is_ducking (game_run self es)).
Proof.
  revert self. induction es as [|e es IH]; intros self Hd; [done|].
  apply IH. by apply game_react_frame.
Qed.

(** X13: the contact with a tunnel block raises [AttributeError] as long as
    [is_ducking] is unset; every key press sets it, and no event unsets it,
    so that after a key press and any further events the contact
    returns [True]. *)
Theorem tunnel_contact_after_key_press d now name block :
  block_get_id block = "tunnel" →
  (∀ self, is_ducking self = None →
     (_handle_player_collide_block d now name block self).2
     = Raise AttributeError) ∧
  (∀ self key es, key_press key →
     (_handle_player_collide_block d now name block
        (game_run self (key :: es))).2 = Ok true).
Proof.
  intros Hid. split.
  - intros self Hnone. rewrite player_collide_block_result, Hid, Hnone. done.
  - intros self key es Hkey.
    assert (is_Some (is_ducking (game_react self key))) as Hd.
    { destruct key; try done; cbn [game_react];
        unfold _move, _jump, _duck; simpl; eauto. }
    apply (game_run_is_ducking _ es) in Hd as [b Hb].
    rewrite player_collide_block_result, Hid.
    change (game_run self (key :: es))
      with (game_run (game_react self key) es).
    by rewrite Hb.
Qed.

Lemma game_run_jumping self es :
  Forall not_landing es →
  _jumping (_player self) = true →
  _jumping (_player (game_run self es)) = true.
Proof.
  intros Hes. revert self.
  induction Hes as [|e es He _ IH]; intros self Hj; [done|].
  apply IH. by apply game_react_frame.
Qed.

(** X14: after a jump the jumping flag stays set through every event that
    is no contact of the player with a block from Above (further keys,
    stomped mobs, a reset of the level); until such a contact a second
    jump key leaves the velocity of the player as it is. *)
Theorem no_second_jump self es :
  Forall not_landing es →
  let flying := game_run self (KeyJump :: es) in
  is_jumping (_player flying) = true ∧
  velocity (_player (game_react flying KeyJump)) = velocity (_player flying).
Proof.
  intros Hes flying.
  assert (_jumping (_player flying) = true) as Hj.
  { unfold flying.
    change (game_run self (KeyJump :: es))
      with (game_run (game_react self KeyJump) es).
    apply game_run_jumping; [done|]. cbn [game_react]. unfold _jump.
    by destruct (is_jumping (_player self)) eqn:Hj. }
  split; [done|]. cbn [game_react]. unfold _jump, is_jumping. by rewrite Hj.
Qed.

(** X15: picking up an item takes that item, and nothing else, out of the
    world; a star sets the invincibility flag and leaves the player (health,
    score, velocity) as it is, and a coin leaves the flag and its timer as
    they are. *)
Theorem player_collide_item_effects t1 t2 item self :
  let self' := (_handle_player_collide_item t1 t2 item self).1 in
  (∀ r, r ∈ items (_world self') ↔ r ∈ items (_world self) ∧ r ≠ item_ref item) ∧
  blocks (_world self') = blocks (_world self) ∧
  mobs (_world self') = mobs (_world self) ∧
  match item_class item with
  | Star => _player self' = _player self ∧ _player_invincible self' = true
  | Coin _ =>
      _player_invincible self' = _player_invincible self ∧
      _start_invincible self' = _start_invincible self
  end.
Proof.
  unfold _handle_player_collide_item, collect, item_get_id.
  split.
  { intros r. destruct (item_class item); simpl; apply elem_of_remove_ref. }
  by destruct (item_class item).
Qed.

End HandlerMore.

(** ** More on the switch, the status display and the view *)

Section DisplayFacts.
Import Mario Game Display.

(** X16: a switch that is active stays exactly as it is, start time
    included, through ticks and strikes from the sides or from Below: only
    a strike from Above presses it. *)
Theorem switch_only_pressed_from_above self es :
  _active self = true →
  Forall not_above es →
  switch_run self es = self.
Proof.
  intros Ha Hes. unfold switch_run.
  induction Hes as [|e es He _ IH]; simpl; [done|].
  assert (switch_react self e = self) as ->; [|done].
  destruct e as [[] now|now]; simpl in *; try done.
  unfold Switch_step, check_time. by rewrite Ha.
Qed.

(** X17: for a health between 0 and 16 the width of the bar does not depend
    on what was shown before, and a lower health never gives a wider bar;
    the width is 0 exactly at health 0. *)
Theorem healthbar_width_monotone h1 h2 inv1 inv2 s1 s2 :
  0 ≤ h1 → h1 ≤ h2 → h2 ≤ 16 →
  _remaining_width (healthbar_attributes h1 inv1 s1)
  ≤ _remaining_width (healthbar_attributes h2 inv2 s2) ∧
  (_remaining_width (healthbar_attributes h1 inv1 s1) = 0 ↔ h1 = 0).
Proof.
  intros H0 H12 H16. unfold healthbar_attributes. simpl.
  repeat match goal with
         | |- context [?a <=? ?b] => destruct (Z.leb_spec a b)
         | |- context [?a =? ?b] => destruct (Z.eqb_spec a b)
         end; lia.
Qed.

(** X18: for a health of 1, 2 or 3 without a star no branch sets the
    colour, and for a health of 17, 18 or 19 no branch sets the width: the
    bar keeps what it showed before; with a star the colour is gold
    whatever the health. *)
Theorem healthbar_stale health invincible self :
  (1 ≤ health ≤ 3 → invincible = false →
   _colour (healthbar_attributes health invincible self) = _colour self) ∧
  (17 ≤ health ≤ 19 →
   _remaining_width (healthbar_attributes health invincible self)
   = _remaining_width self) ∧
  (invincible = true →
   _colour (healthbar_attributes health invincible self) = Some "gold").
Proof.
  unfold healthbar_attributes. simpl. repeat split.
  - intros Hh ->.
    repeat match goal with
           | |- context [?a <=? ?b] => destruct (Z.leb_spec a b)
           | |- context [?a =? ?b] => destruct (Z.eqb_spec a b)
           end; (done || lia).
  - intros Hh.
    repeat match goal with
           | |- context [?a <=? ?b] => destruct (Z.leb_spec a b)
           | |- context [?a =? ?b] => destruct (Z.eqb_spec a b)
           end; (done || lia).
  - by intros ->.
Qed.

Lemma Qle_bool_false' (x y : Q) : Qle_bool x y = false → (y < x)%Q.
Proof.
  intros Hf. apply Qnot_le_lt. intros Hle%Qle_bool_iff. congruence.
Qed.

(** X19: [scroll] always sets an offset, with no vertical part; while the
    player is between the two boundaries the offset puts the player at the
    middle of the window, and when the world is at least as wide as the
    window the view never leaves the world: the offset lies between
    window width - world width and 0. *)
Theorem scroll_offset x_position winfo_width pixel_width :
  ∃ dx,
    scroll x_position winfo_width pixel_width = Some (dx, 0%Q) ∧
    ((winfo_width / 2 <= x_position)%Q →
     (x_position <= pixel_width - winfo_width / 2)%Q →
     (x_position + dx == winfo_width / 2)%Q) ∧
    ((winfo_width <= pixel_width)%Q →
     (winfo_width - pixel_width <= dx)%Q ∧ (dx <= 0)%Q).
Proof.
  unfold scroll.
  assert (winfo_width / 2 + winfo_width / 2 == winfo_width)%Q as Hhalf
    by field.
  destruct (Qle_bool x_position (winfo_width / 2)) eqn:H1.
  { apply Qle_bool_iff in H1. eexists. split; [done|]. split.
    - intros. lra.
    - intros. split; lra. }
  apply Qle_bool_false' in H1.
  assert (Qle_bool (winfo_width / 2) x_position = true) as ->.
  { apply Qle_bool_iff. lra. }
  cbn [andb].
  destruct (Qle_bool x_position (pixel_width - winfo_width / 2)) eqn:H2.
  { apply Qle_bool_iff in H2. eexists. split; [done|]. split.
    - intros. lra.
    - intros. split; lra. }
  apply Qle_bool_false' in H2.
  assert (Qle_bool (pixel_width - winfo_width / 2) x_position = true) as ->.
  { apply Qle_bool_iff. lra. }
  eexists. split; [done|]. split.
  - intros. lra.
  - intros. split; lra.
Qed.

End DisplayFacts.

(** ** A section header that comes again *)

Section ConfigAgain.
Import PyStr Config Startup.

Lemma read_lines_same_section post h cfgA cfgB :
  is_Some (cfgA !! h) →
  cfgA !! h = cfgB !! h →
  Forall (λ l, is_header (strip l) = false) post →
  ∃ cfgA' cfgB',
    read_lines (cfgA, Some h) post = Ok (cfgA', Some h) ∧
    read_lines (cfgB, Some h) post = Ok (cfgB', Some h) ∧
    is_Some (cfgA' !! h) ∧ cfgA' !! h = cfgB' !! h.
Proof.
  intros Hsome Heq Hpost. revert cfgA cfgB Hsome Heq.
  induction Hpost as [|l post Hh _ IH]; intros cfgA cfgB Hsome Heq.
  { exists cfgA, cfgB. by repeat split. }
  cbn [read_lines].
  assert (heading_known (cfgA, Some h)) as HkA by (by intros ? [= <-]).
  assert (heading_known (cfgB, Some h)) as HkB.
  { intros ? [= <-]. simpl. by rewrite <- Heq. }
  destruct (read_line_cases cfgA (Some h) l HkA)
    as [[Hh' _]|[(_ & ? & eA & n & v & [= <-] & HeA & Hc & Hsp & ->)
                |(_ & Hn & ->)]]; [congruence| |].
  - assert (cfgB !! h = Some eA) as HeB by (by rewrite <- Heq).
    rewrite (read_line_entry _ _ _ _ _ _ Hh Hc HeB Hsp).
    apply IH; rewrite !lookup_insert_eq; eauto.
  - rewrite (read_line_skip cfgB (Some h) l Hh Hn). by apply IH.
Qed.

(** X20: a header line starts its section afresh: with no further header
    after it, the section it names holds in the end what the lines after it
    put there, whatever came before it, entries under an earlier header of
    the same name included. *)
Theorem read_config_header_starts_afresh (pre post : list string) (hdr : string) :
  is_header (strip hdr) = true →
  Forall (λ l, is_header (strip l) = false) post →
  ∃ cfg cfg',
    read_config_file (pre ++ hdr :: post) = Ok cfg ∧
    read_config_file (hdr :: post) = Ok cfg' ∧
    cfg !! slice_1_m1 (strip hdr) = cfg' !! slice_1_m1 (strip hdr).
Proof.
  intros Hh Hpost. set (h := slice_1_m1 (strip hdr)).
  destruct (read_lines_ok (∅, None) pre heading_known_init)
    as ([cfg0 hd0] & Hpre & _).
  destruct (read_lines_same_section post h (<[h := ∅]> cfg0) (<[h := ∅]> ∅))
    as (cfgA & cfgB & HA & HB & _ & Heq); [|by rewrite !lookup_insert_eq|done|].
  { rewrite lookup_insert_eq. eauto. }
  exists cfgA, cfgB. unfold read_config_file.
  rewrite read_lines_app, Hpre. cbn [read_lines].
  rewrite !(read_line_header _ _ _ Hh). fold h. by rewrite HA, HB.
Qed.

End ConfigAgain.

(** ** The further properties on a game *)

Section MoreExamples.
Import PyStr Config Startup Mario Game Display.

Lemma read_config_before_first_header_witness :
  read_config_file (["gravity : 1"; ""] ++ ["==World=="; "gravity : 400"])
  = read_config_file ["==World=="; "gravity : 400"].
Proof.
  apply read_config_before_first_header. by repeat constructor.
Defined.

Lemma read_config_entry_survives_witness :
  ∃ cfg,
    read_config_file (["==World=="] ++ "gravity : 400"
                      :: ["start : level1.txt"; "no entry here"]) = Ok cfg ∧
    config_get cfg "=World=" "gravity" = Ok "400".
Proof.
  apply (read_config_entry_survives ["==World=="]
           ["start : level1.txt"; "no entry here"]
           "gravity : 400" "=World=" "gravity " " 400"); try reflexivity.
  repeat (constructor; [split; [reflexivity|by vm_compute]|]). constructor.
Defined.

Lemma header_name_round_trip_witness :
  ("==World==" = "=" ∧ slice_1_m1 "==World==" = "")
  ∨ "==World==" = "=" +:+ slice_1_m1 "==World==" +:+ "=".
Proof. exact (proj2 header_name_round_trip "==World==" eq_refl). Defined.

(** A file with headers of one '=': the look-up fails. *)
Lemma init_config_needs_world_section_witness :
  init_config ["=World="; "gravity : 400"; "start : level1.txt";
               "=Player="; "character : mario"; "x : 30"; "y : 30"]
  = Raise KeyError.
Proof.
  apply init_config_needs_world_section.
  repeat (constructor; [by vm_compute|]). constructor.
Defined.

(** The same file with headers of two '=' is accepted. *)
Lemma init_config_double_equals :
  init_config ["==World=="; "gravity : 400"; "start : level1.txt";
               "==Player=="; "character : mario"; "x : 30"; "y : 30"]
  = Ok (mkSettings "400" "level1.txt" "mario" "30" "30").
Proof. by vm_compute. Qed.

Lemma invincible_contact_witness :
  get_health
    (_player (player_mob_contact DirL (MushroomMob 4)
                (set_player_invincible true example_app)).2) = 20.
Proof.
  exact (proj1 (invincible_contact DirL (MushroomMob 4)
                  (set_player_invincible true example_app) eq_refl)).
Defined.

Lemma mob_collide_block_world_witness :
  1%nat ∉ blocks (_world (@_handle_mob_collide_block example_library
                            DirL (mkMob 7 "fireball" 50) brick example_app).1.2).
Proof.
  destruct (@mob_collide_block_world example_library
              DirL (mkMob 7 "fireball" 50) brick example_app)
    as (_ & _ & Hfire).
  destruct (Hfire eq_refl) as (_ & Hbrick & _).
  exact (Hbrick eq_refl).
Defined.

Lemma tunnel_contact_level_witness :
  _world (@reset_level example_library
            (@_handle_player_collide_block example_library DirA 0 None
               (mkBlock 2 (PlainBlock "tunnel")) (_duck example_app)).1.2)
  = @load_world example_library "level1.txt".
Proof.
  destruct (@tunnel_contact_level example_library DirA 0 None
              (mkBlock 2 (PlainBlock "tunnel")) (_duck example_app) true
              eq_refl eq_refl) as (_ & _ & Hload).
  exact (proj2 (proj2 Hload)).
Defined.

Lemma check_invincible_never_raises_witness :
  ∃ self',
    check_invincible 5
      (@game_run example_library example_app
         [PlayerItem 1 1 (mkItem 6 Star); KeyJump]) = Ok self'.
Proof.
  apply (@check_invincible_never_raises example_library). by intros ?.
Defined.

Lemma tunnel_contact_after_key_press_witness :
  (@_handle_player_collide_block example_library DirL 0 None
     (mkBlock 2 (PlainBlock "tunnel")) example_app).2 = Raise AttributeError ∧
  (@_handle_player_collide_block example_library DirL 0 None
     (mkBlock 2 (PlainBlock "tunnel"))
     (@game_run example_library example_app [KeyMove "d"; StepPoll 1])).2
  = Ok true.
Proof.
  destruct (@tunnel_contact_after_key_press example_library DirL 0 None
              (mkBlock 2 (PlainBlock "tunnel")) eq_refl) as [Hraise Hok].
  split.
  - exact (Hraise example_app eq_refl).
  - exact (Hok example_app (KeyMove "d") [StepPoll 1] I).
Defined.

Lemma no_second_jump_witness :
  let flying :=
    @game_run example_library example_app
      (KeyJump :: [KeyMove "d"; PlayerMob DirA yes (MushroomMob 4)]) in
  is_jumping (_player flying) = true ∧
  velocity (_player (@game_react example_library flying KeyJump))
  = velocity (_player flying).
Proof.
  apply (@no_second_jump example_library). by repeat constructor.
Defined.

Lemma switch_only_pressed_from_above_witness :
  switch_run (Switch_init 0) [Tick 1; Hit DirL 2; Hit DirB 30; Tick 31]
  = Switch_init 0.
Proof.
  apply switch_only_pressed_from_above; [reflexivity|]. by repeat constructor.
Defined.

Lemma healthbar_width_monotone_witness :
  _remaining_width (healthbar_attributes 4 false StatusDisplay_init)
  ≤ _remaining_width (healthbar_attributes 5 true (mkStatus (Some "red3") 30)) ∧
  (_remaining_width (healthbar_attributes 4 false StatusDisplay_init) = 0
   ↔ 4 = 0).
Proof. apply healthbar_width_monotone; lia. Defined.

Lemma healthbar_stale_witness :
  _colour (healthbar_attributes 2 false (mkStatus (Some "dark orange") 60))
  = Some "dark orange" ∧
  _remaining_width (healthbar_attributes 19 false (mkStatus (Some "gold") 154))
  = 154.
Proof.
  split.
  - apply (proj1 (healthbar_stale 2 false (mkStatus (Some "dark orange") 60)));
      [lia|reflexivity].
  - apply (proj1 (proj2 (healthbar_stale 19 false (mkStatus (Some "gold") 154)))).
    lia.
Defined.

Lemma scroll_offset_witness :
  ∃ dx, scroll 300 200 1000 = Some (dx, 0%Q) ∧ (300 + dx == 200 / 2)%Q
        ∧ (200 - 1000 <= dx)%Q.
Proof.
  destruct (scroll_offset 300 200 1000) as (dx & Hs & Hmid & Hin).
  exists dx. split; [exact Hs|]. split.
  - apply Hmid; discriminate.
  - apply Hin. discriminate.
Defined.

Lemma read_config_header_starts_afresh_witness :
  ∃ cfg cfg',
    read_config_file (["==World=="; "gravity : 400"]
                      ++ "==World==" :: ["start : level1.txt"]) = Ok cfg ∧
    read_config_file ("==World==" :: ["start : level1.txt"]) = Ok cfg' ∧
    cfg !! slice_1_m1 (strip "==World==")
    = cfg' !! slice_1_m1 (strip "==World==").
Proof.
  apply read_config_header_starts_afresh; [reflexivity|].
  by repeat constructor.
Defined.

End MoreExamples.
